(** * Motor de reconocimiento: a shallow embedding of [motor_reconocimiento.py]

    The development follows the Python module function by function.

    - A Python [str] is the list of its code points ([str := list N]).
      The Unicode tables the module consults through [str.lower],
      [unicodedata.normalize('NFD', _)], [unicodedata.category], [\s] and
      [\w] are written out for Basic Latin, the Latin-1 Supplement and the
      Combining Diacritical Marks block (U+0000-U+00FF, U+0300-U+036F); the
      white-space table is complete.  Texts over these blocks are the
      modelled domain.
    - A Python [float] is an IEEE-754 binary64 number, modelled with the
      executable specification [SpecFloat] (precision 53, emax 1024), so
      the arithmetic rounds exactly as the interpreter does.
    - A SQLite row is a typed record [Dato]; the column [categoria_padre]
      keeps the distinction between [NULL], an integer and a text, because
      the module tests it both with [not _] and with [_ is None].
    - The keyword [dict] is an insertion-ordered association list.
    - The audit table is a list of inserted rows together with a flag
      telling whether the database accepts writes; a refused write raises.
    - [Motor] holds the bodies of the methods as functions of the loaded
      dictionaries; [Instancia] holds the methods with the caches of the
      instance, the keyword tables and the audit table as explicit state,
      and the API handler of [app.py] that calls them. *)

From Stdlib Require Import List Bool ZArith NArith Lia String Ascii.
From Stdlib Require Import Sorted Permutation.
From Stdlib Require Import Floats.SpecFloat.
Import ListNotations.


(* ================================================================== *)
(** * Strings *)
(* ================================================================== *)

Module Texto.

Local Open Scope N_scope.

Definition str := list N.

(** An ASCII literal as a Python string. *)
Fixpoint u (s : string) : str :=
  match s with
  | EmptyString => []
  | String c r => N_of_ascii c :: u r
  end.

Fixpoint str_eqb (a b : str) : bool :=
  match a, b with
  | [], [] => true
  | x :: a', y :: b' => (x =? y) && str_eqb a' b'
  | _, _ => false
  end.

(** [str.isspace] / the class [\s] of a [str] pattern. *)
Definition es_espacio (c : N) : bool :=
  ((0x09 <=? c) && (c <=? 0x0D)) || ((0x1C <=? c) && (c <=? 0x20))
  || (c =? 0x85) || (c =? 0xA0) || (c =? 0x1680)
  || ((0x2000 <=? c) && (c <=? 0x200A)) || (c =? 0x2028) || (c =? 0x2029)
  || (c =? 0x202F) || (c =? 0x205F) || (c =? 0x3000).

(** The class [\w] of a [str] pattern: alphanumeric or underscore.  The
    table is written out for U+0000-U+00FF; it answers [false] above
    U+00FF, where Python has further letters and digits. *)
Definition es_palabra (c : N) : bool :=
  ((0x30 <=? c) && (c <=? 0x39)) || ((0x41 <=? c) && (c <=? 0x5A))
  || (c =? 0x5F) || ((0x61 <=? c) && (c <=? 0x7A))
  || (c =? 0xAA) || (c =? 0xB2) || (c =? 0xB3) || (c =? 0xB5)
  || (c =? 0xB9) || (c =? 0xBA) || ((0xBC <=? c) && (c <=? 0xBE))
  || ((0xC0 <=? c) && (c <=? 0xD6)) || ((0xD8 <=? c) && (c <=? 0xF6))
  || ((0xF8 <=? c) && (c <=? 0xFF)).

(** [unicodedata.category(c) == 'Mn'], written out for the Combining
    Diacritical Marks block U+0300-U+036F, all of whose characters are
    non-spacing marks; no character of U+0000-U+00FF and no white space is
    one.  The table answers [false] for the marks of the other blocks. *)
Definition es_Mn (c : N) : bool := (0x300 <=? c) && (c <=? 0x36F).

(** [str.lower], character by character, written out for U+0000-U+00FF;
    a capital above U+00FF is left as it is. *)
Definition minuscula (c : N) : N :=
  if ((0x41 <=? c) && (c <=? 0x5A))
     || ((0xC0 <=? c) && (c <=? 0xDE) && negb (c =? 0xD7))
  then c + 0x20 else c.

Definition lower (s : str) : str := map minuscula s.

(** Canonical decomposition of one character: base letter and mark,
    written out for U+0000-U+00FF and U+0300-U+036F; a precomposed
    character of another block is left whole. *)
Definition descomponer (c : N) : list N :=
  match c with
  | 0xC0 => [0x41; 0x300] | 0xC1 => [0x41; 0x301] | 0xC2 => [0x41; 0x302]
  | 0xC3 => [0x41; 0x303] | 0xC4 => [0x41; 0x308] | 0xC5 => [0x41; 0x30A]
  | 0xC7 => [0x43; 0x327]
  | 0xC8 => [0x45; 0x300] | 0xC9 => [0x45; 0x301] | 0xCA => [0x45; 0x302]
  | 0xCB => [0x45; 0x308]
  | 0xCC => [0x49; 0x300] | 0xCD => [0x49; 0x301] | 0xCE => [0x49; 0x302]
  | 0xCF => [0x49; 0x308]
  | 0xD1 => [0x4E; 0x303]
  | 0xD2 => [0x4F; 0x300] | 0xD3 => [0x4F; 0x301] | 0xD4 => [0x4F; 0x302]
  | 0xD5 => [0x4F; 0x303] | 0xD6 => [0x4F; 0x308]
  | 0xD9 => [0x55; 0x300] | 0xDA => [0x55; 0x301] | 0xDB => [0x55; 0x302]
  | 0xDC => [0x55; 0x308]
  | 0xDD => [0x59; 0x301]
  | 0xE0 => [0x61; 0x300] | 0xE1 => [0x61; 0x301] | 0xE2 => [0x61; 0x302]
  | 0xE3 => [0x61; 0x303] | 0xE4 => [0x61; 0x308] | 0xE5 => [0x61; 0x30A]
  | 0xE7 => [0x63; 0x327]
  | 0xE8 => [0x65; 0x300] | 0xE9 => [0x65; 0x301] | 0xEA => [0x65; 0x302]
  | 0xEB => [0x65; 0x308]
  | 0xEC => [0x69; 0x300] | 0xED => [0x69; 0x301] | 0xEE => [0x69; 0x302]
  | 0xEF => [0x69; 0x308]
  | 0xF1 => [0x6E; 0x303]
  | 0xF2 => [0x6F; 0x300] | 0xF3 => [0x6F; 0x301] | 0xF4 => [0x6F; 0x302]
  | 0xF5 => [0x6F; 0x303] | 0xF6 => [0x6F; 0x308]
  | 0xF9 => [0x75; 0x300] | 0xFA => [0x75; 0x301] | 0xFB => [0x75; 0x302]
  | 0xFC => [0x75; 0x308]
  | 0xFD => [0x79; 0x301] | 0xFF => [0x79; 0x308]
  | 0x340 => [0x300] | 0x341 => [0x301] | 0x343 => [0x313]
  | 0x344 => [0x308; 0x301]
  | _ => [c]
  end.

(** [unicodedata.normalize('NFD', s)].  The canonical reordering of
    neighbouring marks is left out: the module deletes every mark in its
    next statement. *)
Definition nfd (s : str) : str := flat_map descomponer s.

(** The code points the tables above are written out for: Basic Latin and
    the Latin-1 Supplement, the Combining Diacritical Marks, and every
    white-space character.  On a text of such code points [lower],
    [es_Mn], [es_espacio] and [es_palabra] give what [str.lower],
    [unicodedata.category], [\s] and [\w] give, and [nfd] differs from
    [unicodedata.normalize] only in the order of neighbouring marks and
    in U+2000 and U+2001, which Python replaces by the white-space
    characters U+2002 and U+2003; the module deletes the marks and
    replaces every run of white space by one space.  On any other code
    point the tables may differ from Python's. *)
Definition en_dominio (c : N) : bool :=
  (c <=? 0xFF) || ((0x300 <=? c) && (c <=? 0x36F)) || es_espacio c.

Definition texto_en_dominio (s : str) : bool := forallb en_dominio s.

(** [re.sub(r'\s+', ' ', s)]: [dentro] tells that the previous character
    belonged to the run being replaced. *)
Fixpoint colapsar_espacios (dentro : bool) (s : str) : str :=
  match s with
  | [] => []
  | c :: r =>
      if es_espacio c
      then (if dentro then colapsar_espacios true r
            else 0x20 :: colapsar_espacios true r)
      else c :: colapsar_espacios false r
  end.

(** [re.sub(r'[^\w\s]', ' ', s)]. *)
Definition quitar_especiales (s : str) : str :=
  map (fun c => if es_palabra c || es_espacio c then c else 0x20) s.

Fixpoint lstrip (s : str) : str :=
  match s with
  | [] => []
  | c :: r => if es_espacio c then lstrip r else s
  end.

(** [str.strip()]. *)
Definition strip (s : str) : str := rev (lstrip (rev (lstrip s))).

(** [str.startswith]. *)
Fixpoint startswith (s p : str) : bool :=
  match p, s with
  | [], _ => true
  | _ :: _, [] => false
  | x :: p', y :: s' => (x =? y) && startswith s' p'
  end.

(** [p in s] for strings. *)
Fixpoint contiene (p s : str) : bool :=
  startswith s p ||
  match s with
  | [] => false
  | _ :: r => contiene p r
  end.

(** [str.split(sep)] for a one-character separator. *)
Fixpoint split (sep : N) (s : str) : list str :=
  match s with
  | [] => [[]]
  | c :: r =>
      if c =? sep then [] :: split sep r
      else match split sep r with
           | [] => [[c]]
           | h :: t => (c :: h) :: t
           end
  end.

(** [sep.join(l)] for a one-character separator. *)
Fixpoint join (sep : N) (l : list str) : str :=
  match l with
  | [] => []
  | [s] => s
  | s :: r => s ++ sep :: join sep r
  end.

(** The assertion [\b] between two neighbouring positions; a missing
    neighbour (start or end of the text) counts as a non-word character. *)
Definition es_palabra_opt (o : option N) : bool :=
  match o with
  | Some c => es_palabra c
  | None => false
  end.

Definition limite (antes despues : option N) : bool :=
  xorb (es_palabra_opt antes) (es_palabra_opt despues).

Definition ultimo (p : str) (antes : option N) : option N :=
  match rev p with
  | [] => antes
  | c :: _ => Some c
  end.

(** [re.search(r'\b' + re.escape(p) + r'\b', s)] is not [None]; [antes]
    is the character in front of [s]. *)
Fixpoint buscar_palabra (p : str) (antes : option N) (s : str) : bool :=
  (limite antes (nth_error s 0) && startswith s p
   && limite (ultimo p antes) (nth_error s (List.length p)))
  || match s with
     | [] => false
     | c :: r => buscar_palabra p (Some c) r
     end.

Definition palabra_completa (p s : str) : bool := buscar_palabra p None s.

(** Decimal rendering of a length, as an f-string does. *)
Fixpoint digitos (d : Decimal.uint) : str :=
  match d with
  | Decimal.Nil => []
  | Decimal.D0 r => 0x30 :: digitos r | Decimal.D1 r => 0x31 :: digitos r
  | Decimal.D2 r => 0x32 :: digitos r | Decimal.D3 r => 0x33 :: digitos r
  | Decimal.D4 r => 0x34 :: digitos r | Decimal.D5 r => 0x35 :: digitos r
  | Decimal.D6 r => 0x36 :: digitos r | Decimal.D7 r => 0x37 :: digitos r
  | Decimal.D8 r => 0x38 :: digitos r | Decimal.D9 r => 0x39 :: digitos r
  end.

Definition str_of_nat (n : nat) : str := digitos (Nat.to_uint n).

End Texto.

(* ================================================================== *)
(** * Floating-point numbers *)
(* ================================================================== *)

Module Flotante.

Local Open Scope Z_scope.

Definition prec : Z := 53.
Definition emax : Z := 1024.

Definition float := spec_float.

Definition fmul : float -> float -> float := SFmul prec emax.
Definition fdiv : float -> float -> float := SFdiv prec emax.
Definition fltb : float -> float -> bool := SFltb.
Definition fleb : float -> float -> bool := SFleb.

(** [float(z)] for an integer that fits a double. *)
Definition of_Z (z : Z) : float := binary_normalize prec emax z 0 false.

(** The literal whose decimal value is [n / d]: both are exact doubles and
    the division rounds to nearest, as the parser of literals does. *)
Definition decimal (n d : Z) : float := fdiv (of_Z n) (of_Z d).

Definition f0_0 : float := S754_zero false.
Definition f0_3 : float := Eval vm_compute in decimal 3 10.
Definition f0_8 : float := Eval vm_compute in decimal 8 10.
Definition f0_9 : float := Eval vm_compute in decimal 9 10.
Definition f1_0 : float := Eval vm_compute in of_Z 1.
Definition f1_1 : float := Eval vm_compute in decimal 11 10.
Definition f1_2 : float := Eval vm_compute in decimal 12 10.
Definition f1_5 : float := Eval vm_compute in decimal 15 10.
Definition f2_0 : float := Eval vm_compute in of_Z 2.
Definition f100 : float := Eval vm_compute in of_Z 100.

(** [min(a, b)]: the second argument replaces the first when it is
    smaller. *)
Definition py_min (a b : float) : float := if fltb b a then b else a.

(** [max(l, default=d)]: a later item replaces the running maximum when
    it is greater. *)
Definition py_max (l : list float) (d : float) : float :=
  match l with
  | [] => d
  | x :: r => fold_left (fun m y => if fltb m y then y else m) r x
  end.

(** Nearest integer to [num / den], ties to even ([den] positive). *)
Definition redondear_par (num den : Z) : Z :=
  let q := num / den in
  let r := num mod den in
  match 2 * r ?= den with
  | Lt => q
  | Gt => q + 1
  | Eq => if Z.even q then q else q + 1
  end.

(** [round(x, 1)]: the exact value of [x] is rounded to one decimal, ties
    to even, and the decimal is read back as a double. *)
Definition round1 (x : float) : float :=
  match x with
  | S754_finite s m e =>
      let n := if 0 <=? e then Zpos m * 2 ^ e * 10
               else redondear_par (Zpos m * 10) (2 ^ (- e)) in
      match n with
      | Zpos p => fdiv (S754_finite s p 0) (of_Z 10)
      | _ => S754_zero s
      end
  | _ => x
  end.

Definition es_nan (x : float) : bool :=
  match x with
  | S754_nan => true
  | _ => false
  end.

(** The comparison of two numbers is the lexicographic comparison of
    their keys: class and sign, exponent, mantissa. *)
Definition clave_orden (x : float) : Z * Z * Z :=
  match x with
  | S754_nan => (0, 0, 0)
  | S754_infinity true => (-2, 0, 0)
  | S754_infinity false => (2, 0, 0)
  | S754_zero _ => (0, 0, 0)
  | S754_finite true m e => (-1, - e, Zneg m)
  | S754_finite false m e => (1, e, Zpos m)
  end.

Definition lex_le (a b : Z * Z * Z) : Prop :=
  let '(a1, a2, a3) := a in
  let '(b1, b2, b3) := b in
  a1 < b1 \/ (a1 = b1 /\ (a2 < b2 \/ (a2 = b2 /\ a3 <= b3))).

Definition lex_lt (a b : Z * Z * Z) : Prop :=
  let '(a1, a2, a3) := a in
  let '(b1, b2, b3) := b in
  a1 < b1 \/ (a1 = b1 /\ (a2 < b2 \/ (a2 = b2 /\ a3 < b3))).

End Flotante.

Import Texto Flotante.


(* ================================================================== *)
(** * The engine *)
(* ================================================================== *)

Module Motor.

Local Open Scope Z_scope.

(** ** Data *)

(** A value read from a SQLite column that may hold a reference. *)
Inductive Valor :=
| Nulo
| Entero (z : Z)
| Cadena (s : str).

(** Truth value of a column, as [if v] / [not v] see it. *)
Definition verdadero (v : Valor) : bool :=
  match v with
  | Nulo => false
  | Entero z => negb (z =? 0)
  | Cadena [] => false
  | Cadena (_ :: _) => true
  end.

(** [v is None]. *)
Definition es_None (v : Valor) : bool :=
  match v with
  | Nulo => true
  | _ => false
  end.

(** One keyword row joined with its category: the dictionary built for
    each row by the loaders.  The spare-parts loader leaves [complejidad]
    out, and the spare-parts detector never reads it. *)
Record Dato := {
  palabra_original : str;
  peso : float;
  es_sinonimo : bool;
  palabra_principal : option str;
  categoria_id : Z;
  categoria_nombre : str;
  categoria_padre : Valor;
  color_codigo : str;
  complejidad : Z
}.

Record ClasificacionResultado := {
  categoria : str;
  cls_categoria_id : Z;
  confianza : float;
  palabras_encontradas : list str;
  es_categoria_padre : bool;
  cls_color_codigo : str
}.

Record DeteccionCompleta := {
  texto_original : str;
  texto_normalizado : str;
  clasificaciones : list ClasificacionResultado;
  mejor_clasificacion : option ClasificacionResultado;
  confianza_total : float
}.

(** The keyword dictionary: normalised keyword to its rows, in insertion
    order. *)
Definition Palabras := list (str * list Dato).

(** ** normalizar_texto

    The six statements of the method, in order.  The result is Python's
    on every text that satisfies [texto_en_dominio]; a character outside
    of that domain is treated as the tables of [Texto] say, which may
    differ from Python's (a letter above U+00FF counts as a special
    character here). *)

Definition normalizar_texto (texto : str) : str :=
  match texto with
  | [] => []
  | _ =>
      let texto := lower texto in
      let texto := nfd texto in
      let texto := filter (fun c => negb (es_Mn c)) texto in
      let texto := colapsar_espacios false texto in
      let texto := quitar_especiales texto in
      strip texto
  end.

(** ** cargar_palabras_clave_repuestos / cargar_palabras_clave_trabajos

    [palabras[clave].append(dato)] on a [defaultdict(list)]. *)
Fixpoint agregar (clave : str) (dato : Dato) (palabras : Palabras) : Palabras :=
  match palabras with
  | [] => [(clave, [dato])]
  | (k, datos) :: r =>
      if str_eqb k clave then (k, datos ++ [dato]) :: r
      else (k, datos) :: agregar clave dato r
  end.

(** The rows of the query, in its order, grouped under their normalised
    keyword. *)
Definition cargar_palabras_clave (filas : list Dato) : Palabras :=
  fold_left
    (fun palabras fila =>
       agregar (normalizar_texto (palabra_original fila)) fila palabras)
    filas [].

(** ** Confidence of one row *)

(** The body of the inner loop of [detectar_repuestos]; [completa] is the
    outcome of the whole-word search. *)
Definition confianza_repuesto (completa : bool) (dato : Dato) : float :=
  let confianza := peso dato in
  let confianza := if completa then fmul confianza f1_5 else confianza in
  let confianza := if es_sinonimo dato then fmul confianza f0_8
                   else confianza in
  let confianza := if negb (verdadero (categoria_padre dato))
                   then fmul confianza f0_9
                   else fmul confianza f1_1 in
  py_min (fdiv confianza f2_0) f1_0.

(** The body of the inner loop of [detectar_trabajos]. *)
Definition confianza_trabajo (completa : bool) (dato : Dato) : float :=
  let confianza := peso dato in
  let confianza := if completa then fmul confianza f1_5 else confianza in
  let confianza := if es_sinonimo dato then fmul confianza f0_8
                   else confianza in
  let confianza := if negb (verdadero (categoria_padre dato))
                   then fmul confianza f0_9
                   else fmul confianza f1_1 in
  let confianza := if 3 <=? complejidad dato then fmul confianza f1_2
                   else confianza in
  py_min (fdiv confianza f2_0) f1_0.

(** ** The detection loop, shared by both detectors *)

Section Deteccion.

Variable calcular : bool -> Dato -> float.

Definition resultado_de (dato : Dato) (c : float) : ClasificacionResultado :=
  {| categoria := categoria_nombre dato;
     cls_categoria_id := categoria_id dato;
     confianza := c;
     palabras_encontradas := [palabra_original dato];
     es_categoria_padre := es_None (categoria_padre dato);
     cls_color_codigo := color_codigo dato |}.

(** One row of one matched keyword: appended when it reaches the
    threshold. *)
Definition clasificar_dato (texto_normalizado : str) (umbral : float)
    (palabra_norm : str) (dato : Dato) : list ClasificacionResultado :=
  let c := calcular (palabra_completa palabra_norm texto_normalizado) dato in
  if fleb umbral c then [resultado_de dato c] else [].

(** The list [clasificaciones] after the two nested loops. *)
Definition candidatos (texto_normalizado : str) (umbral : float)
    (palabras_clave : Palabras) : list ClasificacionResultado :=
  flat_map
    (fun '(palabra_norm, datos_palabra) =>
       if contiene palabra_norm texto_normalizado
       then flat_map (clasificar_dato texto_normalizado umbral palabra_norm)
                     datos_palabra
       else [])
    palabras_clave.

(** One iteration of the loop that fills [clasificaciones_unicas]. *)
Fixpoint actualizar (cls : ClasificacionResultado)
    (unicas : list (str * ClasificacionResultado))
    : list (str * ClasificacionResultado) :=
  match unicas with
  | [] => [(categoria cls, cls)]
  | (key, actual) :: r =>
      if str_eqb key (categoria cls)
      then (if fltb (confianza actual) (confianza cls)
            then (key, cls) :: r
            else (key, actual) :: r)
      else (key, actual) :: actualizar cls r
  end.

Definition clasificaciones_unicas (l : list ClasificacionResultado)
    : list (str * ClasificacionResultado) :=
  fold_left (fun unicas cls => actualizar cls unicas) l [].

(** [sorted(_, key=lambda x: x.confianza, reverse=True)]: the stable sort
    in decreasing order.  An item goes in front of the first one whose
    confidence is not greater than its own. *)
Fixpoint insertar (x : ClasificacionResultado)
    (l : list ClasificacionResultado) : list ClasificacionResultado :=
  match l with
  | [] => [x]
  | y :: r =>
      if fltb (confianza x) (confianza y) then y :: insertar x r
      else x :: l
  end.

Definition sorted_confianza (l : list ClasificacionResultado)
    : list ClasificacionResultado :=
  fold_right insertar [] l.

Definition detectar (texto : str) (palabras_clave : Palabras)
    (umbral_confianza : float) : DeteccionCompleta :=
  let texto_normalizado := normalizar_texto texto in
  let clasificaciones :=
    candidatos texto_normalizado umbral_confianza palabras_clave in
  let unicas := clasificaciones_unicas clasificaciones in
  let clasificaciones_finales := sorted_confianza (map snd unicas) in
  {| texto_original := texto;
     texto_normalizado := texto_normalizado;
     clasificaciones := clasificaciones_finales;
     mejor_clasificacion := hd_error clasificaciones_finales;
     confianza_total := py_max (map confianza clasificaciones_finales) f0_0 |}.

End Deteccion.

Definition detectar_repuestos : str -> Palabras -> float -> DeteccionCompleta :=
  detectar confianza_repuesto.

Definition detectar_trabajos : str -> Palabras -> float -> DeteccionCompleta :=
  detectar confianza_trabajo.

(** ** guardar_clasificacion *)

(** A row of [clasificaciones_automaticas].  The last column keeps the
    list whose [str()] the module stores. *)
Record Registro := {
  reg_mantenimiento_id : Z;
  reg_texto_original : str;
  reg_tipo : str;
  reg_categoria_detectada : str;
  reg_confianza : float;
  reg_palabras_encontradas : list (list str)
}.

(** The audit table: the rows inserted so far and the rows the database
    is willing to take. *)
Record Almacen := {
  filas : list Registro;
  acepta : Registro -> bool
}.

Inductive Excepcion := OperationalError.

Inductive Resultado (A : Type) :=
| Ok (a : A)
| Raise (e : Excepcion).

Arguments Ok {A} a.
Arguments Raise {A} e.

Definition bind {A B : Type} (r : Resultado A) (k : A -> Resultado B)
    : Resultado B :=
  match r with
  | Ok a => k a
  | Raise e => Raise e
  end.

Notation "x <- r ;; k" := (bind r (fun x => k))
  (at level 61, r at next level, right associativity).

(** [conn.execute('INSERT ...', fila)]. *)
Definition insertar_fila (fila : Registro) (db : Almacen) : Resultado Almacen :=
  if acepta db fila
  then Ok {| filas := filas db ++ [fila]; acepta := acepta db |}
  else Raise OperationalError.

(** The tuple bound to the [INSERT] statement. *)
Definition fila_de (mantenimiento_id : Z) (deteccion : DeteccionCompleta)
    (tipo : str) (mejor : ClasificacionResultado) : Registro :=
  let palabras_json := map palabras_encontradas (clasificaciones deteccion) in
  {| reg_mantenimiento_id := mantenimiento_id;
     reg_texto_original := texto_original deteccion;
     reg_tipo := tipo;
     reg_categoria_detectada := categoria mejor;
     reg_confianza := confianza_total deteccion;
     reg_palabras_encontradas := palabras_json |}.

Definition guardar_clasificacion (mantenimiento_id : Z)
    (deteccion : DeteccionCompleta) (tipo : str) (db : Almacen)
    : Resultado Almacen :=
  match mejor_clasificacion deteccion with
  | Some mejor =>
      insertar_fila (fila_de mantenimiento_id deteccion tipo mejor) db
  | None => Ok db
  end.

(** ** analizar_mantenimiento_completo *)

Record Item := {
  item_categoria : str;
  item_confianza : float;
  item_palabras : list str;
  item_color : str
}.

(** A key of the returned dictionary that the early return leaves out. *)
Inductive Campo (A : Type) :=
| Ausente
| Presente (a : A).

Arguments Ausente {A}.
Arguments Presente {A} a.

Record Informe := {
  repuestos : list Item;
  trabajos : list Item;
  confianza_repuestos : float;
  confianza_trabajos : float;
  mejor_repuesto : Campo (option str);
  mejor_trabajo : Campo (option str);
  resumen : str
}.

Definition barra : N := 0x7C.
Definition espacio : str := [0x20%N].

(** One iteration of the loop over [partes]: the pair is
    [(texto_repuestos, texto_trabajos)]. *)
Definition acumular (textos : str * str) (parte : str) : str * str :=
  let '(texto_repuestos, texto_trabajos) := textos in
  let parte := strip parte in
  if startswith (lower parte) (u "repuesto")
  then (texto_repuestos ++ espacio ++ parte, texto_trabajos)
  else if startswith (lower parte) (u "trabajo")
  then (texto_repuestos, texto_trabajos ++ espacio ++ parte)
  else (texto_repuestos ++ espacio ++ parte,
        texto_trabajos ++ espacio ++ parte).

Definition separar (descripcion : str) : str * str :=
  fold_left acumular (split barra descripcion) ([], []).

(** The labels the loop looks for, and the segments each accumulator
    receives according to them. *)
Definition etiqueta_repuesto (parte : str) : bool :=
  startswith (lower parte) (u "repuesto").

Definition etiqueta_trabajo (parte : str) : bool :=
  startswith (lower parte) (u "trabajo").

Definition sin_etiqueta (parte : str) : bool :=
  negb (etiqueta_repuesto parte) && negb (etiqueta_trabajo parte).

Definition aporte (recibe : str -> bool) (parte : str) : str :=
  if recibe parte then espacio ++ parte else [].

Definition item_de (c : ClasificacionResultado) : Item :=
  {| item_categoria := categoria c;
     item_confianza := round1 (fmul (confianza c) f100);
     item_palabras := palabras_encontradas c;
     item_color := cls_color_codigo c |}.

Definition informe_vacio : Informe :=
  {| repuestos := [];
     trabajos := [];
     confianza_repuestos := f0_0;
     confianza_trabajos := f0_0;
     mejor_repuesto := Ausente;
     mejor_trabajo := Ausente;
     resumen := u "Sin descripci" ++ [0xF3%N] ++ u "n para analizar" |}.

Definition informe_de (dr dt : DeteccionCompleta) : Informe :=
  {| repuestos := map item_de (firstn 5 (clasificaciones dr));
     trabajos := map item_de (firstn 5 (clasificaciones dt));
     confianza_repuestos := round1 (fmul (confianza_total dr) f100);
     confianza_trabajos := round1 (fmul (confianza_total dt) f100);
     mejor_repuesto := Presente (option_map categoria (mejor_clasificacion dr));
     mejor_trabajo := Presente (option_map categoria (mejor_clasificacion dt));
     resumen :=
       u "Detectados " ++ str_of_nat (List.length (clasificaciones dr))
       ++ u " tipos de repuestos y "
       ++ str_of_nat (List.length (clasificaciones dt))
       ++ u " tipos de trabajos" |}.

(** [if mantenimiento_id:] on an [Optional[int]]. *)
Definition id_verdadero (mantenimiento_id : option Z) : option Z :=
  match mantenimiento_id with
  | Some z => if z =? 0 then None else Some z
  | None => None
  end.

Definition guardar_si_mejor (mantenimiento_id : Z)
    (deteccion : DeteccionCompleta) (tipo : str) (db : Almacen)
    : Resultado Almacen :=
  match mejor_clasificacion deteccion with
  | Some _ => guardar_clasificacion mantenimiento_id deteccion tipo db
  | None => Ok db
  end.

(** The two keyword dictionaries are the ones the loaders return; the
    detectors run with their default threshold. *)
Definition analizar_mantenimiento_completo
    (palabras_repuestos palabras_trabajos : Palabras)
    (descripcion : option str) (mantenimiento_id : option Z) (db : Almacen)
    : Resultado (Informe * Almacen) :=
  match descripcion with
  | None | Some [] => Ok (informe_vacio, db)
  | Some descripcion =>
      let '(texto_repuestos, texto_trabajos) := separar descripcion in
      let deteccion_repuestos :=
        detectar_repuestos texto_repuestos palabras_repuestos f0_3 in
      let deteccion_trabajos :=
        detectar_trabajos texto_trabajos palabras_trabajos f0_3 in
      db <- match id_verdadero mantenimiento_id with
            | Some id =>
                db <- guardar_si_mejor id deteccion_repuestos
                        (u "repuesto") db ;;
                guardar_si_mejor id deteccion_trabajos (u "trabajo") db
            | None => Ok db
            end ;;
      Ok (informe_de deteccion_repuestos deteccion_trabajos, db)
  end.

End Motor.

Import Motor.

(* ================================================================== *)
(** * Vocabulary of the statements *)
(* ================================================================== *)

(** The confidence is a number: it compares with itself. *)
Definition sin_nan (cls : ClasificacionResultado) : Prop :=
  es_nan (confianza cls) = false.

(** [x] may stand in front of [y] in a ranking. *)
Definition no_menor (x y : ClasificacionResultado) : Prop :=
  fleb (confianza y) (confianza x) = true.

(** The loop over [clasificaciones], started from any dictionary. *)
Definition plegar (l : list ClasificacionResultado)
    (unicas : list (str * ClasificacionResultado)) :=
  fold_left (fun unicas cls => actualizar cls unicas) l unicas.

(** [clasificaciones_finales] as a function of the candidates. *)
Definition finales (l : list ClasificacionResultado)
    : list ClasificacionResultado :=
  sorted_confianza (map snd (clasificaciones_unicas l)).

(** The result of a detection in which nothing was found. *)
Definition deteccion_vacia (texto : str) : DeteccionCompleta :=
  {| texto_original := texto;
     texto_normalizado := [];
     clasificaciones := [];
     mejor_clasificacion := None;
     confianza_total := f0_0 |}.

(** [m] is a candidate built from one taxonomy row, carries the keyword
    of that row and no other, and no candidate of its category has a
    greater confidence. *)
Definition unico_ganador (calcular : bool -> Dato -> float)
    (texto : str) (pc : Palabras) (umbral : float)
    (m : ClasificacionResultado) : Prop :=
  let tn := normalizar_texto texto in
  (exists k datos d,
     In (k, datos) pc /\ In d datos /\ contiene k tn = true /\
     categoria m = categoria_nombre d /\
     palabras_encontradas m = [palabra_original d]) /\
  In m (candidatos calcular tn umbral pc) /\
  (forall c, In c (candidatos calcular tn umbral pc) ->
             categoria c = categoria m ->
             fleb (confianza c) (confianza m) = true).

(** The running value of [confianza] once the synonym test is passed. *)
Definition tras_sinonimo (completa : bool) (dato : Dato) : float :=
  let c := if completa then fmul (peso dato) f1_5 else peso dato in
  if es_sinonimo dato then fmul c f0_8 else c.

(** The factor the parent column selects. *)
Definition factor_categoria (dato : Dato) : float :=
  match categoria_padre dato with
  | Nulo => f0_9
  | Entero z => if (z =? 0)%Z then f0_9 else f1_1
  | Cadena [] => f0_9
  | Cadena (_ :: _) => f1_1
  end.

(** The complexity step of the labour detector. *)
Definition tras_complejidad (dato : Dato) (c : float) : float :=
  if (3 <=? complejidad dato)%Z then fmul c f1_2 else c.

(** The factors as the specification words them: 1.1 for a category
    without parent, 0.9 for a category with one. *)
Definition factor_categoria_spec (dato : Dato) : float :=
  if es_None (categoria_padre dato) then f1_1 else f0_9.

Definition confianza_repuesto_spec (completa : bool) (dato : Dato) : float :=
  py_min (fdiv (fmul (tras_sinonimo completa dato)
                     (factor_categoria_spec dato)) f2_0) f1_0.

(* ================================================================== *)
(** * Sample taxonomies *)
(* ================================================================== *)

Module Ejemplos.

Local Open Scope Z_scope.

Definition dato (palabra : str) (w : float) (id : Z) (nombre : str)
    (padre : Valor) (nivel : Z) : Dato :=
  {| palabra_original := palabra; peso := w; es_sinonimo := false;
     palabra_principal := None; categoria_id := id;
     categoria_nombre := nombre; categoria_padre := padre;
     color_codigo := u "#6c757d"; complejidad := nivel |}.

(** A root category and one of its keywords. *)
Definition filtro : Dato := dato (u "filtro") f1_0 1 (u "Filtros") Nulo 1.

(** A second, lighter keyword of the same category. *)
Definition aceite : Dato :=
  dato (u "aceite") (decimal 8 10) 1 (u "Filtros") Nulo 1.

(** A keyword of a category that has a parent. *)
Definition manguera : Dato :=
  dato (u "manguera") f1_0 5 (u "Mangueras") (Entero 2) 1.

(** A labour keyword. *)
Definition service : Dato :=
  dato (u "service") f1_0 2 (u "Mantenimiento General") Nulo 1.

(** A keyword made of punctuation only, as the management form accepts. *)
Definition signos : Dato := dato (u "!!!") f1_0 9 (u "Varios") Nulo 1.

Definition palabras_filtros : Palabras := cargar_palabras_clave [filtro; aceite].
Definition palabras_service : Palabras := cargar_palabras_clave [service].
Definition palabras_signos : Palabras := cargar_palabras_clave [signos].

(** A database that takes every row, and one that refuses every row. *)
Definition db_abierta : Almacen := {| filas := []; acepta := fun _ => true |}.
Definition db_cerrada : Almacen := {| filas := []; acepta := fun _ => false |}.

End Ejemplos.

(* ================================================================== *)
(** * The engine instance and its callers *)
(* ================================================================== *)

(** The methods of [MotorReconocimiento] with the state they act on: the
    two keyword caches of the instance, the keyword tables they are loaded
    from, and the audit table.  The pure functions of [Motor] are the
    bodies of these methods once the dictionaries are loaded. *)
Module Instancia.

Local Open Scope Z_scope.

(** What the two [SELECT ... JOIN ...] queries of the loaders return at
    the moment they run: the rows in the order of the query, or nothing
    when the statement raises. *)
Record BaseDatos := {
  consulta_repuestos : option (list Dato);
  consulta_trabajos : option (list Dato)
}.

(** The instance.  Its two category caches are assigned [None] and never
    read; they are left out. *)
Record MotorReconocimiento := {
  db_path : str;
  cache_palabras_repuestos : option Palabras;
  cache_palabras_trabajos : option Palabras
}.

(** [crear_motor_reconocimiento(db_path)], that is [__init__]. *)
Definition crear_motor_reconocimiento (ruta : str) : MotorReconocimiento :=
  {| db_path := ruta;
     cache_palabras_repuestos := None;
     cache_palabras_trabajos := None |}.

Definition invalidar_cache (motor : MotorReconocimiento)
    : MotorReconocimiento :=
  {| db_path := db_path motor;
     cache_palabras_repuestos := None;
     cache_palabras_trabajos := None |}.

Definition cargar_palabras_clave_repuestos (bd : BaseDatos)
    (motor : MotorReconocimiento)
    : Resultado Palabras * MotorReconocimiento :=
  match cache_palabras_repuestos motor with
  | Some palabras => (Ok palabras, motor)
  | None =>
      match consulta_repuestos bd with
      | Some filas =>
          let palabras := cargar_palabras_clave filas in
          (Ok palabras,
           {| db_path := db_path motor;
              cache_palabras_repuestos := Some palabras;
              cache_palabras_trabajos := cache_palabras_trabajos motor |})
      | None => (Raise OperationalError, motor)
      end
  end.

Definition cargar_palabras_clave_trabajos (bd : BaseDatos)
    (motor : MotorReconocimiento)
    : Resultado Palabras * MotorReconocimiento :=
  match cache_palabras_trabajos motor with
  | Some palabras => (Ok palabras, motor)
  | None =>
      match consulta_trabajos bd with
      | Some filas =>
          let palabras := cargar_palabras_clave filas in
          (Ok palabras,
           {| db_path := db_path motor;
              cache_palabras_repuestos := cache_palabras_repuestos motor;
              cache_palabras_trabajos := Some palabras |})
      | None => (Raise OperationalError, motor)
      end
  end.

Definition detectar_repuestos (bd : BaseDatos) (texto : str)
    (umbral_confianza : float) (motor : MotorReconocimiento)
    : Resultado DeteccionCompleta * MotorReconocimiento :=
  match cargar_palabras_clave_repuestos bd motor with
  | (Ok palabras_clave, motor) =>
      (Ok (Motor.detectar_repuestos texto palabras_clave umbral_confianza),
       motor)
  | (Raise e, motor) => (Raise e, motor)
  end.

Definition detectar_trabajos (bd : BaseDatos) (texto : str)
    (umbral_confianza : float) (motor : MotorReconocimiento)
    : Resultado DeteccionCompleta * MotorReconocimiento :=
  match cargar_palabras_clave_trabajos bd motor with
  | (Ok palabras_clave, motor) =>
      (Ok (Motor.detectar_trabajos texto palabras_clave umbral_confianza),
       motor)
  | (Raise e, motor) => (Raise e, motor)
  end.

(** The whole method, with the instance and the audit table as they are
    when it returns or raises.  Each [guardar_clasificacion] commits on its
    own, so a row written before a later statement raises stays. *)
Definition analizar_mantenimiento_completo (bd : BaseDatos)
    (descripcion : option str) (mantenimiento_id : option Z)
    (motor : MotorReconocimiento) (db : Almacen)
    : Resultado Informe * MotorReconocimiento * Almacen :=
  match descripcion with
  | None | Some [] => (Ok informe_vacio, motor, db)
  | Some descripcion =>
      let '(texto_repuestos, texto_trabajos) := separar descripcion in
      match detectar_repuestos bd texto_repuestos f0_3 motor with
      | (Raise e, motor) => (Raise e, motor, db)
      | (Ok deteccion_repuestos, motor) =>
          match detectar_trabajos bd texto_trabajos f0_3 motor with
          | (Raise e, motor) => (Raise e, motor, db)
          | (Ok deteccion_trabajos, motor) =>
              let informe :=
                informe_de deteccion_repuestos deteccion_trabajos in
              match id_verdadero mantenimiento_id with
              | None => (Ok informe, motor, db)
              | Some id =>
                  match guardar_si_mejor id deteccion_repuestos
                          (u "repuesto") db with
                  | Raise e => (Raise e, motor, db)
                  | Ok db1 =>
                      match guardar_si_mejor id deteccion_trabajos
                              (u "trabajo") db1 with
                      | Raise e => (Raise e, motor, db1)
                      | Ok db2 => (Ok informe, motor, db2)
                      end
                  end
              end
          end
      end
  end.

(** ** api_analizar_mantenimiento (app.py) *)

(** The columns of the fetched maintenance row that the handler reads. *)
Record Mantenimiento := {
  descripcion : option str;
  equipo_nombre : str;
  cliente_nombre : str;
  fecha_mantenimiento : str
}.

(** The [error] entry of a JSON body: the fixed text of the 404 answer,
    or [str(e)] of the exception caught. *)
Inductive Mensaje :=
| NoEncontrado
| DeExcepcion (e : Excepcion).

Inductive Cuerpo :=
| CuerpoError (error : Mensaje)
| CuerpoAnalisis (mantenimiento_id : Z) (equipo cliente fecha : str)
    (descripcion_original : option str) (analisis : Informe).

(** Body and HTTP status. *)
Definition Respuesta : Type := Cuerpo * Z.

Definition ruta_por_defecto : str := u "taller.db".

(** [fila] is the outcome of the handler's own [SELECT ... fetchone()].
    The handler builds a new engine for every request. *)
Definition api_analizar_mantenimiento (bd : BaseDatos)
    (fila : Resultado (option Mantenimiento)) (mantenimiento_id : Z)
    (db : Almacen) : Respuesta * Almacen :=
  match fila with
  | Raise e => ((CuerpoError (DeExcepcion e), 500), db)
  | Ok None => ((CuerpoError NoEncontrado, 404), db)
  | Ok (Some mantenimiento) =>
      let motor := crear_motor_reconocimiento ruta_por_defecto in
      match analizar_mantenimiento_completo bd (descripcion mantenimiento)
              (Some mantenimiento_id) motor db with
      | (Ok analisis, _, db) =>
          ((CuerpoAnalisis mantenimiento_id (equipo_nombre mantenimiento)
              (cliente_nombre mantenimiento)
              (fecha_mantenimiento mantenimiento)
              (descripcion mantenimiento) analisis, 200), db)
      | (Raise e, _, db) => ((CuerpoError (DeExcepcion e), 500), db)
      end
  end.

End Instancia.

(* ================================================================== *)
(** * Vocabulary of the further properties *)
(* ================================================================== *)

(** What one character of the text becomes in the first three statements
    of [normalizar_texto]: lower case, decomposed, marks deleted. *)
Definition base_de (c : N) : list N :=
  filter (fun y => negb (es_Mn y)) (descomponer (minuscula c)).

(** A character those three statements leave as it is. *)
Definition estable (c : N) : bool :=
  (minuscula c =? c)%N && str_eqb (descomponer c) [c] && negb (es_Mn c).

(** A word character or the space U+0020. *)
Definition limpio (c : N) : bool := es_palabra c || (c =? 0x20)%N.

(** The base letter of a precomposed letter. *)
Definition sin_acento (c : N) : N :=
  match descomponer c with
  | b :: _ => b
  | [] => c
  end.

Definition sin_acentos (s : str) : str := map sin_acento s.

(** The word "VALVULA" with the precomposed capital U+00C1, and the same
    word in small letters with U+00E1. *)
Definition valvula_mayuscula : str :=
  [0x56; 0xC1; 0x4C; 0x56; 0x55; 0x4C; 0x41]%N.

Definition valvula_acentuada : str :=
  [0x76; 0xE1; 0x6C; 0x76; 0x75; 0x6C; 0x61]%N.

(** No white space other than U+0020 and no two spaces in a row;
    [dentro] tells that a space precedes the text. *)
Fixpoint compacto (dentro : bool) (s : str) : bool :=
  match s with
  | [] => true
  | c :: r =>
      if es_espacio c then (c =? 0x20)%N && negb dentro && compacto true r
      else compacto false r
  end.

(** Neither the first nor the last character is white space. *)
Definition sin_bordes (s : str) : bool :=
  match s with
  | [] => true
  | c :: _ => negb (es_espacio c) && negb (es_espacio (last s c))
  end.

Definition normal (s : str) : bool :=
  forallb estable s && forallb limpio s && sin_bordes s.

(** The loop of the loaders, started from any dictionary. *)
Definition agrupar (filas : list Dato) (pc : Palabras) : Palabras :=
  fold_left
    (fun palabras fila =>
       agregar (normalizar_texto (palabra_original fila)) fila palabras)
    filas pc.

(** Two detections that differ at most in the original text they
    quote. *)
Definition misma_deteccion (d1 d2 : DeteccionCompleta) : Prop :=
  texto_normalizado d1 = texto_normalizado d2 /\
  clasificaciones d1 = clasificaciones d2 /\
  mejor_clasificacion d1 = mejor_clasificacion d2 /\
  confianza_total d1 = confianza_total d2.

(** An audit table that takes the rows of the spare-parts pass and
    refuses the others. *)
Definition solo_repuestos : Almacen :=
  {| filas := [];
     acepta := fun fila => str_eqb (reg_tipo fila) (u "repuesto") |}.

(** [m] stands in the list of candidates in front of every candidate of
    its category that equals it in confidence: those before it are
    strictly weaker, those after it are not stronger. *)
Definition primero_de_su_categoria (l : list ClasificacionResultado)
    (m : ClasificacionResultado) : Prop :=
  exists l1 l2,
    l = l1 ++ m :: l2 /\
    (forall c, In c l1 -> categoria c = categoria m ->
               fltb (confianza c) (confianza m) = true) /\
    (forall c, In c l2 -> categoria c = categoria m ->
               fleb (confianza c) (confianza m) = true).

(** What the dictionary of the deduplication loop holds once the
    candidates [vistos] have been processed. *)
Definition dic_ordenado (vistos : list ClasificacionResultado)
    (unicas : list (str * ClasificacionResultado)) : Prop :=
  NoDup (map fst unicas) /\
  (forall k v, In (k, v) unicas ->
               k = categoria v /\ primero_de_su_categoria vistos v) /\
  (forall c, In c vistos -> In (categoria c) (map fst unicas)) /\
  Forall sin_nan vistos.

(** [palabras_clave.get(clave, [])]. *)
Fixpoint obtener (clave : str) (palabras : Palabras) : list Dato :=
  match palabras with
  | [] => []
  | (k, datos) :: r => if str_eqb k clave then datos else obtener clave r
  end.

(** The rows registered under one normalised keyword, in query order. *)
Definition filas_de (clave : str) (filas : list Dato) : list Dato :=
  filter (fun fila => str_eqb (normalizar_texto (palabra_original fila)) clave)
         filas.

(* ================================================================== *)
(** * Order of floating-point numbers *)
(* ================================================================== *)

Section OrdenFlotante.

Local Open Scope Z_scope.

Lemma fleb_spec (a b : float) :
  fleb a b = true <->
  es_nan a = false /\ es_nan b = false /\
  lex_le (clave_orden a) (clave_orden b).
Proof.
  unfold fleb, SFleb.
  destruct a as [sa|sa| |sa ma ea], b as [sb|sb| |sb mb eb];
    try destruct sa; try destruct sb; cbn;
    try (split; [intros _; repeat split; lia | reflexivity]);
    try (split; [discriminate | intros (H1 & H2 & H3); try discriminate; exfalso; lia]).
  - change (PosDef.Pos.compare_cont Eq ma mb) with (Pos.compare ma mb).
    destruct (Z.compare_spec ea eb); destruct (Pos.compare_spec ma mb); cbn;
      (split; [try discriminate; (intros _; repeat split; lia)
              | intros (_ & _ & H3); try reflexivity; exfalso; lia]).
  - change (PosDef.Pos.compare_cont Eq ma mb) with (Pos.compare ma mb).
    destruct (Z.compare_spec ea eb); destruct (Pos.compare_spec ma mb); cbn;
      (split; [try discriminate; (intros _; repeat split; lia)
              | intros (_ & _ & H3); try reflexivity; exfalso; lia]).
Qed.

Lemma fltb_spec (a b : float) :
  fltb a b = true <->
  es_nan a = false /\ es_nan b = false /\
  lex_lt (clave_orden a) (clave_orden b).
Proof.
  unfold fltb, SFltb.
  destruct a as [sa|sa| |sa ma ea], b as [sb|sb| |sb mb eb];
    try destruct sa; try destruct sb; cbn;
    try (split; [intros _; repeat split; lia | reflexivity]);
    try (split; [discriminate | intros (H1 & H2 & H3); try discriminate; exfalso; lia]).
  - change (PosDef.Pos.compare_cont Eq ma mb) with (Pos.compare ma mb).
    destruct (Z.compare_spec ea eb); destruct (Pos.compare_spec ma mb); cbn;
      (split; [try discriminate; (intros _; repeat split; lia)
              | intros (_ & _ & H3); try reflexivity; exfalso; lia]).
  - change (PosDef.Pos.compare_cont Eq ma mb) with (Pos.compare ma mb).
    destruct (Z.compare_spec ea eb); destruct (Pos.compare_spec ma mb); cbn;
      (split; [try discriminate; (intros _; repeat split; lia)
              | intros (_ & _ & H3); try reflexivity; exfalso; lia]).
Qed.

Lemma fleb_trans (a b c : float) :
  fleb a b = true -> fleb b c = true -> fleb a c = true.
Proof.
  rewrite !fleb_spec. intros (Ha & Hb & H1) (_ & Hc & H2).
  repeat split; trivial.
  destruct (clave_orden a) as [[a1 a2] a3], (clave_orden b) as [[b1 b2] b3],
    (clave_orden c) as [[c1 c2] c3]; cbn in *; lia.
Qed.

Lemma fltb_fleb (a b : float) : fltb a b = true -> fleb a b = true.
Proof.
  rewrite fltb_spec, fleb_spec. intros (Ha & Hb & H). repeat split; trivial.
  destruct (clave_orden a) as [[a1 a2] a3], (clave_orden b) as [[b1 b2] b3];
    cbn in *; lia.
Qed.

Lemma fltb_false_fleb (a b : float) :
  es_nan a = false -> es_nan b = false -> fltb a b = false -> fleb b a = true.
Proof.
  intros Ha Hb H. apply fleb_spec. repeat split; trivial.
  destruct (fltb a b) eqn:E; [discriminate|].
  assert (N : ~ lex_lt (clave_orden a) (clave_orden b)).
  { intros L. rewrite (proj2 (fltb_spec a b)) in E; [discriminate|auto]. }
  destruct (clave_orden a) as [[a1 a2] a3], (clave_orden b) as [[b1 b2] b3];
    cbn in *; lia.
Qed.

Lemma fleb_fltb_false (a b : float) : fleb a b = true -> fltb b a = false.
Proof.
  intros H. destruct (fltb b a) eqn:E; trivial.
  apply fleb_spec in H. apply fltb_spec in E.
  destruct H as (_ & _ & H), E as (_ & _ & E).
  destruct (clave_orden a) as [[a1 a2] a3], (clave_orden b) as [[b1 b2] b3];
    cbn in *; lia.
Qed.

Lemma fleb_no_nan (a b : float) :
  fleb a b = true -> es_nan a = false /\ es_nan b = false.
Proof. rewrite fleb_spec. tauto. Qed.

End OrdenFlotante.

Section Listas.

Lemma str_eqb_eq (a b : str) : str_eqb a b = true <-> a = b.
Proof.
  revert b. induction a as [|x a IH]; intros [|y b]; cbn; split;
    try discriminate; try reflexivity.
  - intros H. apply andb_true_iff in H as [H1 H2].
    apply N.eqb_eq in H1. apply IH in H2. congruence.
  - intros H. injection H as -> ->. rewrite N.eqb_refl. now apply IH.
Qed.

Lemma str_eqb_refl (a : str) : str_eqb a a = true.
Proof. now apply str_eqb_eq. Qed.

Lemma str_eqb_neq (a b : str) : str_eqb a b = false <-> a <> b.
Proof.
  rewrite <- str_eqb_eq. destruct (str_eqb a b); split; congruence.
Qed.

End Listas.

Section Unicas.

Implicit Types (cls v : ClasificacionResultado)
  (unicas : list (str * ClasificacionResultado)).

Lemma fleb_refl cls : sin_nan cls -> fleb (confianza cls) (confianza cls) = true.
Proof.
  intros H. apply fltb_false_fleb; trivial.
  destruct (fltb (confianza cls) (confianza cls)) eqn:E; trivial.
  pose proof (fleb_fltb_false _ _ (fltb_fleb _ _ E)). congruence.
Qed.

Lemma actualizar_claves_in cls unicas :
  In (categoria cls) (map fst unicas) ->
  map fst (actualizar cls unicas) = map fst unicas.
Proof.
  induction unicas as [|[k a] r IH]; cbn; [tauto|].
  destruct (str_eqb k (categoria cls)) eqn:E.
  - destruct (fltb _ _); reflexivity.
  - apply str_eqb_neq in E. intros [H|H]; [congruence|].
    cbn. now rewrite IH.
Qed.

Lemma actualizar_claves_notin cls unicas :
  ~ In (categoria cls) (map fst unicas) ->
  map fst (actualizar cls unicas) = map fst unicas ++ [categoria cls].
Proof.
  induction unicas as [|[k a] r IH]; cbn; [reflexivity|].
  destruct (str_eqb k (categoria cls)) eqn:E.
  - apply str_eqb_eq in E. tauto.
  - intros H. cbn. rewrite IH; tauto.
Qed.

Lemma In_dec_str (k : str) (l : list str) : In k l \/ ~ In k l.
Proof.
  destruct (in_dec (list_eq_dec N.eq_dec) k l); auto.
Qed.

Lemma actualizar_NoDup cls unicas :
  NoDup (map fst unicas) -> NoDup (map fst (actualizar cls unicas)).
Proof.
  intros H. destruct (In_dec_str (categoria cls) (map fst unicas)) as [Hin|Hin].
  - now rewrite actualizar_claves_in.
  - rewrite actualizar_claves_notin by trivial.
    apply NoDup_app; [trivial|constructor; [tauto|constructor]|].
    cbn. intros x Hx [<-|[]]. tauto.
Qed.

Lemma actualizar_claves_iff cls unicas k :
  In k (map fst (actualizar cls unicas)) <->
  In k (map fst unicas) \/ k = categoria cls.
Proof.
  destruct (In_dec_str (categoria cls) (map fst unicas)) as [Hin|Hin].
  - rewrite actualizar_claves_in by trivial. split; [tauto|].
    intros [H| ->]; trivial.
  - rewrite actualizar_claves_notin by trivial. rewrite in_app_iff. cbn.
    intuition congruence.
Qed.

Lemma actualizar_origen cls unicas k v :
  In (k, v) (actualizar cls unicas) ->
  In (k, v) unicas \/ (k = categoria cls /\ v = cls).
Proof.
  induction unicas as [|[k' a] r IH]; cbn.
  - intros [H|[]]. injection H as <- <-. auto.
  - destruct (str_eqb k' (categoria cls)) eqn:E.
    + apply str_eqb_eq in E.
      destruct (fltb _ _); cbn; intros [H|H]; auto.
      injection H as <- <-. auto.
    + cbn. intros [H|H]; auto. apply IH in H. tauto.
Qed.

Lemma actualizar_conserva cls unicas k v :
  sin_nan cls -> sin_nan v ->
  In (k, v) unicas ->
  exists v', In (k, v') (actualizar cls unicas) /\
             fleb (confianza v) (confianza v') = true.
Proof.
  intros Hc Hv. induction unicas as [|[k' a] r IH]; cbn; [tauto|].
  intros [H|H].
  - injection H as -> ->.
    destruct (str_eqb k (categoria cls)) eqn:E.
    + destruct (fltb (confianza v) (confianza cls)) eqn:F.
      * exists cls. split; [now left|now apply fltb_fleb].
      * exists v. split; [now left|now apply fleb_refl].
    + exists v. split; [now left|now apply fleb_refl].
  - destruct (IH H) as (v' & Hin & Hle).
    destruct (str_eqb k' (categoria cls)) eqn:E.
    + exists v. split; [|now apply fleb_refl].
      destruct (fltb _ _); now right.
    + exists v'. split; [now right|trivial].
Qed.

Lemma actualizar_registra cls unicas :
  sin_nan cls -> (forall k v, In (k, v) unicas -> sin_nan v) ->
  exists v', In (categoria cls, v') (actualizar cls unicas) /\
             fleb (confianza cls) (confianza v') = true.
Proof.
  intros Hc. induction unicas as [|[k a] r IH]; cbn; intros Hall.
  - exists cls. split; [now left|now apply fleb_refl].
  - destruct (str_eqb k (categoria cls)) eqn:E.
    + apply str_eqb_eq in E. subst k.
      destruct (fltb (confianza a) (confianza cls)) eqn:F.
      * exists cls. split; [now left|now apply fleb_refl].
      * exists a. split; [now left|].
        apply fltb_false_fleb; trivial. apply (Hall (categoria cls) a). now left.
    + destruct IH as (v' & Hin & Hle).
      { intros k' v' H. apply (Hall k' v'). now right. }
      exists v'. split; [now right|trivial].
Qed.

End Unicas.

Section Plegado.

Implicit Types (cls v : ClasificacionResultado)
  (l : list ClasificacionResultado)
  (unicas : list (str * ClasificacionResultado)).

Lemma plegar_NoDup l : forall unicas,
  NoDup (map fst unicas) -> NoDup (map fst (plegar l unicas)).
Proof.
  induction l as [|c l IH]; cbn; intros unicas H; trivial.
  apply IH. now apply actualizar_NoDup.
Qed.

Lemma plegar_claves l : forall unicas k,
  In k (map fst (plegar l unicas)) <->
  In k (map fst unicas) \/ exists c, In c l /\ categoria c = k.
Proof.
  induction l as [|c l IH]; cbn; intros unicas k.
  - split; [tauto|]. intros [H|(c & [] & _)]; trivial.
  - rewrite IH, actualizar_claves_iff. split.
    + intros [[H| ->]|(c' & H1 & H2)]; eauto 6.
    + intros [H|(c' & [->|H1] & H2)]; eauto 6.
Qed.

Lemma plegar_origen l : forall unicas k v,
  In (k, v) (plegar l unicas) ->
  In (k, v) unicas \/ (In v l /\ k = categoria v).
Proof.
  induction l as [|c l IH]; cbn; intros unicas k v H; auto.
  apply IH in H as [H|H]; [|tauto].
  apply actualizar_origen in H as [H|[-> ->]]; auto.
Qed.

Lemma plegar_conserva l : forall unicas k v,
  Forall sin_nan l -> sin_nan v ->
  In (k, v) unicas ->
  exists v', In (k, v') (plegar l unicas) /\
             fleb (confianza v) (confianza v') = true.
Proof.
  induction l as [|c l IH]; cbn; intros unicas k v Hl Hv Hin.
  - exists v. split; trivial. now apply fleb_refl.
  - inversion Hl as [|? ? Hc Hl']; subst.
    destruct (actualizar_conserva c unicas k v Hc Hv Hin) as (v1 & H1 & L1).
    destruct (IH (actualizar c unicas) k v1 Hl') as (v2 & H2 & L2); trivial.
    { now apply fleb_no_nan in L1. }
    exists v2. split; trivial. eapply fleb_trans; eauto.
Qed.

Lemma plegar_registra l : forall unicas c,
  Forall sin_nan l -> (forall k v, In (k, v) unicas -> sin_nan v) ->
  In c l ->
  exists v', In (categoria c, v') (plegar l unicas) /\
             fleb (confianza c) (confianza v') = true.
Proof.
  induction l as [|c0 l IH]; cbn; intros unicas c Hl Hall Hin; [tauto|].
  inversion Hl as [|? ? Hc Hl']; subst.
  assert (Hall' : forall k v, In (k, v) (actualizar c0 unicas) -> sin_nan v).
  { intros k v H. apply actualizar_origen in H as [H|[_ ->]]; eauto. }
  destruct Hin as [->|Hin].
  - destruct (actualizar_registra c unicas Hc Hall) as (v1 & H1 & L1).
    destruct (plegar_conserva l (actualizar c unicas) (categoria c) v1 Hl')
      as (v2 & H2 & L2); trivial.
    { now apply fleb_no_nan in L1. }
    exists v2. split; trivial. eapply fleb_trans; eauto.
  - now apply IH.
Qed.

Lemma clasificaciones_unicas_plegar l :
  clasificaciones_unicas l = plegar l [].
Proof. reflexivity. Qed.

Lemma NoDup_clave_unica unicas k v v' :
  NoDup (map fst unicas) -> In (k, v) unicas -> In (k, v') unicas -> v = v'.
Proof.
  induction unicas as [|[k0 a] r IH]; cbn; [tauto|].
  intros H. inversion H as [|? ? Hn Hr]; subst.
  intros [E1|H1] [E2|H2].
  - congruence.
  - injection E1 as -> ->. exfalso. apply Hn.
    change k with (fst (k, v')). now apply in_map.
  - injection E2 as -> ->. exfalso. apply Hn.
    change k with (fst (k, v)). now apply in_map.
  - now apply IH.
Qed.

Lemma map_categoria_snd unicas :
  (forall k v, In (k, v) unicas -> k = categoria v) ->
  map categoria (map snd unicas) = map fst unicas.
Proof.
  induction unicas as [|[k a] r IH]; cbn; intros H; trivial.
  rewrite IH by (intros; apply H; now right).
  now rewrite <- (H k a) by now left.
Qed.

End Plegado.

Section Ordenacion.

Implicit Types (x y : ClasificacionResultado)
  (l : list ClasificacionResultado).

Lemma insertar_perm x l : Permutation (insertar x l) (x :: l).
Proof.
  induction l as [|y r IH]; cbn; [reflexivity|].
  destruct (fltb _ _); [|reflexivity].
  rewrite IH. apply perm_swap.
Qed.

Lemma sorted_confianza_perm l : Permutation (sorted_confianza l) l.
Proof.
  induction l as [|x l IH]; cbn; [reflexivity|].
  rewrite insertar_perm. now constructor.
Qed.

Lemma insertar_sorted x l :
  sin_nan x -> Forall sin_nan l ->
  StronglySorted no_menor l -> StronglySorted no_menor (insertar x l).
Proof.
  intros Hx Hl Hs. induction Hs as [|y r Hs IH Hy]; cbn.
  - repeat constructor.
  - inversion Hl as [|? ? Hny Hr]; subst.
    destruct (fltb (confianza x) (confianza y)) eqn:E.
    + constructor; [now apply IH|].
      apply Forall_forall. intros z Hz.
      apply (Permutation_in _ (insertar_perm x r)) in Hz as [<-|Hz].
      * now apply fltb_fleb.
      * rewrite Forall_forall in Hy. now apply Hy.
    + assert (Hyx : no_menor x y) by now apply fltb_false_fleb.
      constructor; [now constructor|].
      constructor; trivial.
      apply Forall_forall. intros z Hz. rewrite Forall_forall in Hy.
      unfold no_menor in *. eapply fleb_trans; [now apply Hy|trivial].
Qed.

Lemma sorted_confianza_sorted l :
  Forall sin_nan l -> StronglySorted no_menor (sorted_confianza l).
Proof.
  induction l as [|x l IH]; cbn; intros H; [constructor|].
  inversion H; subst. apply insertar_sorted; auto.
  apply Forall_forall. intros z Hz.
  apply (Permutation_in _ (sorted_confianza_perm l)) in Hz.
  rewrite Forall_forall in H3. now apply H3.
Qed.

Lemma py_max_cabeza (m : float) (r : list float) :
  Forall (fun z : float => fleb z m = true) r ->
  fold_left (fun (m z : float) => if fltb m z then z else m) r m = m.
Proof.
  induction r as [|z r IH]; cbn; intros H; trivial.
  inversion H; subst. rewrite fleb_fltb_false by trivial. now apply IH.
Qed.

End Ordenacion.

Section Finales.

Implicit Types (m c : ClasificacionResultado)
  (l : list ClasificacionResultado).

Lemma unicas_NoDup l : NoDup (map fst (clasificaciones_unicas l)).
Proof. apply plegar_NoDup. constructor. Qed.

Lemma unicas_origen l k v :
  In (k, v) (clasificaciones_unicas l) -> In v l /\ k = categoria v.
Proof. intros H. apply plegar_origen in H as [[]|H]. exact H. Qed.

Lemma unicas_registra l c :
  Forall sin_nan l -> In c l ->
  exists v, In (categoria c, v) (clasificaciones_unicas l) /\
            fleb (confianza c) (confianza v) = true.
Proof. intros Hl Hc. apply plegar_registra; trivial. intros k v []. Qed.

Lemma finales_perm l :
  Permutation (finales l) (map snd (clasificaciones_unicas l)).
Proof. apply sorted_confianza_perm. Qed.

Lemma finales_In l m :
  In m (finales l) <-> In (categoria m, m) (clasificaciones_unicas l).
Proof.
  split.
  - intros H. apply (Permutation_in _ (finales_perm l)) in H.
    apply in_map_iff in H as ([k v] & <- & H). cbn.
    now rewrite <- (proj2 (unicas_origen _ _ _ H)).
  - intros H. apply (Permutation_in _ (Permutation_sym (finales_perm l))).
    apply in_map_iff. now exists (categoria m, m).
Qed.

Lemma finales_candidato l m : In m (finales l) -> In m l.
Proof. intros H. apply finales_In in H. now apply unicas_origen in H. Qed.

Lemma finales_NoDup l : NoDup (map categoria (finales l)).
Proof.
  apply (Permutation_NoDup
           (Permutation_sym (Permutation_map categoria (finales_perm l)))).
  rewrite map_categoria_snd.
  - apply unicas_NoDup.
  - intros k v H. now apply unicas_origen in H.
Qed.

Lemma finales_maximo l m c :
  Forall sin_nan l -> In m (finales l) -> In c l ->
  categoria c = categoria m ->
  fleb (confianza c) (confianza m) = true.
Proof.
  intros Hl Hm Hc E. apply finales_In in Hm.
  destruct (unicas_registra l c Hl Hc) as (v & Hv & L).
  rewrite E in Hv.
  now rewrite (NoDup_clave_unica _ _ _ _ (unicas_NoDup l) Hm Hv).
Qed.

Lemma finales_sorted l :
  Forall sin_nan l -> StronglySorted no_menor (finales l).
Proof.
  intros Hl. apply sorted_confianza_sorted.
  apply Forall_forall. intros v Hv.
  apply in_map_iff in Hv as ([k v'] & <- & H). cbn.
  apply unicas_origen in H as [H _].
  rewrite Forall_forall in Hl. now apply Hl.
Qed.

Lemma finales_length l :
  List.length (finales l) = List.length (map fst (clasificaciones_unicas l)).
Proof.
  rewrite (Permutation_length (finales_perm l)).
  now rewrite !length_map.
Qed.

Lemma finales_length_incl l1 l2 :
  incl l2 l1 -> (List.length (finales l2) <= List.length (finales l1))%nat.
Proof.
  intros H. rewrite !finales_length.
  apply NoDup_incl_length; [apply unicas_NoDup|].
  intros k Hk. apply plegar_claves in Hk as [[]|(c & Hc & E)].
  apply plegar_claves. right. exists c. auto.
Qed.

End Finales.

Section Candidatos.

Variable calcular : bool -> Dato -> float.

Lemma in_candidatos tn umbral pc c :
  In c (candidatos calcular tn umbral pc) <->
  exists k datos d,
    In (k, datos) pc /\ contiene k tn = true /\ In d datos /\
    fleb umbral (calcular (palabra_completa k tn) d) = true /\
    c = resultado_de d (calcular (palabra_completa k tn) d).
Proof.
  unfold candidatos. rewrite in_flat_map. split.
  - intros ([k datos] & Hin & H).
    destruct (contiene k tn) eqn:E; [|destruct H].
    apply in_flat_map in H as (d & Hd & H). unfold clasificar_dato in H.
    destruct (fleb umbral _) eqn:F; [|destruct H].
    destruct H as [<-|[]]. exists k, datos, d. auto.
  - intros (k & datos & d & Hin & E & Hd & F & ->).
    exists (k, datos). split; trivial. rewrite E.
    apply in_flat_map. exists d. split; trivial.
    unfold clasificar_dato. rewrite F. now left.
Qed.

Lemma candidatos_sin_nan tn umbral pc :
  Forall sin_nan (candidatos calcular tn umbral pc).
Proof.
  apply Forall_forall. intros c H.
  apply in_candidatos in H as (k & datos & d & _ & _ & _ & F & ->).
  now apply fleb_no_nan in F.
Qed.

Lemma candidatos_umbral tn t1 t2 pc :
  fleb t1 t2 = true ->
  incl (candidatos calcular tn t2 pc) (candidatos calcular tn t1 pc).
Proof.
  intros Ht c H. apply in_candidatos in H as (k & datos & d & H1 & H2 & H3 & F & ->).
  apply in_candidatos. exists k, datos, d. repeat split; trivial.
  eapply fleb_trans; eauto.
Qed.

Lemma detectar_clasificaciones texto pc umbral :
  clasificaciones (detectar calcular texto pc umbral) =
  finales (candidatos calcular (normalizar_texto texto) umbral pc).
Proof. reflexivity. Qed.

Lemma detectar_total texto pc umbral :
  confianza_total (detectar calcular texto pc umbral) =
  match clasificaciones (detectar calcular texto pc umbral) with
  | [] => f0_0
  | m :: _ => confianza m
  end.
Proof.
  pose proof (finales_sorted
    (candidatos calcular (normalizar_texto texto) umbral pc)
    (candidatos_sin_nan _ _ _)) as Hs.
  rewrite detectar_clasificaciones. cbn.
  fold (finales (candidatos calcular (normalizar_texto texto) umbral pc)).
  destruct (finales _) as [|m r]; cbn; trivial.
  apply py_max_cabeza. inversion Hs as [|? ? _ Hall]; subst.
  apply Forall_forall. intros z Hz. apply in_map_iff in Hz as (y & <- & Hy).
  rewrite Forall_forall in Hall. now apply Hall.
Qed.

End Candidatos.

Section Cadenas.

Local Open Scope N_scope.

Lemma es_espacio_casos (c : N) :
  es_espacio c = true ->
  In c [0x09; 0x0A; 0x0B; 0x0C; 0x0D; 0x1C; 0x1D; 0x1E; 0x1F; 0x20; 0x85;
        0xA0; 0x1680; 0x2000; 0x2001; 0x2002; 0x2003; 0x2004; 0x2005;
        0x2006; 0x2007; 0x2008; 0x2009; 0x200A; 0x2028; 0x2029; 0x202F;
        0x205F; 0x3000].
Proof.
  unfold es_espacio.
  rewrite !orb_true_iff, !andb_true_iff, !N.leb_le, !N.eqb_eq.
  cbn [In]. lia.
Qed.

Lemma espacio_estable (c : N) :
  es_espacio c = true ->
  minuscula c = c /\ descomponer c = [c] /\ es_Mn c = false.
Proof.
  intros H. apply es_espacio_casos in H. cbn [In] in H.
  repeat (destruct H as [<-|H]; [now vm_compute|]). destruct H.
Qed.

Lemma colapsar_dentro (s : str) :
  forallb es_espacio s = true -> colapsar_espacios true s = [].
Proof.
  induction s as [|c r IH]; cbn; trivial.
  intros H. apply andb_true_iff in H as [H1 H2]. rewrite H1. auto.
Qed.

Lemma normalizar_espacios (s : str) :
  forallb es_espacio s = true -> normalizar_texto s = [].
Proof.
  intros H. destruct s as [|c r]; trivial.
  assert (E : filter (fun c => negb (es_Mn c)) (nfd (lower (c :: r))) = c :: r).
  { revert H. generalize (c :: r). intros s. induction s as [|x s IH]; trivial.
    cbn. intros H. apply andb_true_iff in H as [H1 H2].
    destruct (espacio_estable x H1) as (-> & -> & E). cbn. rewrite E. cbn.
    f_equal. now apply IH. }
  unfold normalizar_texto. rewrite E. cbn in H |- *.
  apply andb_true_iff in H as [H1 H2]. rewrite H1.
  now rewrite colapsar_dentro.
Qed.

Lemma contiene_vacio (p : str) : p <> [] -> contiene p [] = false.
Proof. destruct p; [congruence|reflexivity]. Qed.

Lemma split_no_vacio (sep : N) (s : str) : split sep s <> [].
Proof.
  destruct s as [|c r]; cbn; [discriminate|].
  destruct (c =? sep); [discriminate|].
  destruct (split sep r); discriminate.
Qed.

Lemma join_split (sep : N) (s : str) : join sep (split sep s) = s.
Proof.
  induction s as [|c r IH]; trivial. cbn [split].
  pose proof (split_no_vacio sep r) as Hne.
  destruct (split sep r) as [|h t]; [congruence|].
  destruct (N.eqb_spec c sep) as [->|_].
  - change (join sep ([] :: h :: t)) with (sep :: join sep (h :: t)).
    now rewrite IH.
  - destruct t as [|x t].
    + cbn in *. now subst.
    + change (join sep ((c :: h) :: x :: t))
        with (c :: (h ++ sep :: join sep (x :: t))).
      change (join sep (h :: x :: t))
        with (h ++ sep :: join sep (x :: t)) in IH.
      now rewrite IH.
Qed.

Lemma split_sin_separador (sep : N) (s : str) :
  Forall (fun p => ~ In sep p) (split sep s).
Proof.
  induction s as [|c r IH]; cbn [split].
  - constructor; [tauto|constructor].
  - destruct (N.eqb_spec c sep) as [->|Hne].
    + constructor; [tauto|trivial].
    + destruct (split sep r) as [|h t].
      * constructor; [|constructor]. cbn. intuition congruence.
      * inversion IH; subst. constructor; trivial. cbn. intuition congruence.
Qed.

Lemma etiquetas_excluyentes (parte : str) :
  etiqueta_repuesto parte = true -> etiqueta_trabajo parte = false.
Proof.
  unfold etiqueta_repuesto, etiqueta_trabajo.
  destruct (lower parte) as [|c r]; trivial.
  cbn [u startswith]. intros H. apply andb_true_iff in H as [H _].
  apply N.eqb_eq in H. now rewrite <- H.
Qed.

Lemma acumular_aporte (tr tt parte : str) :
  acumular (tr, tt) parte =
  (tr ++ aporte (fun p => etiqueta_repuesto p || sin_etiqueta p) (strip parte),
   tt ++ aporte (fun p => etiqueta_trabajo p || sin_etiqueta p) (strip parte)).
Proof.
  unfold acumular, aporte, sin_etiqueta.
  fold (etiqueta_repuesto (strip parte)). fold (etiqueta_trabajo (strip parte)).
  destruct (etiqueta_repuesto (strip parte)) eqn:R.
  - rewrite (etiquetas_excluyentes _ R). cbn. now rewrite app_nil_r.
  - destruct (etiqueta_trabajo (strip parte)); cbn; now rewrite ?app_nil_r.
Qed.

Lemma separar_aportes (partes : list str) : forall tr tt,
  fold_left acumular partes (tr, tt) =
  (tr ++ flat_map (aporte (fun p => etiqueta_repuesto p || sin_etiqueta p))
                  (map strip partes),
   tt ++ flat_map (aporte (fun p => etiqueta_trabajo p || sin_etiqueta p))
                  (map strip partes)).
Proof.
  induction partes as [|p r IH]; cbn [fold_left map flat_map]; intros tr tt.
  - now rewrite !app_nil_r.
  - rewrite acumular_aporte, IH. now rewrite <- !app_assoc.
Qed.

End Cadenas.

Section Carga.

Lemma agregar_claves (clave : str) (d : Dato) (pc : Palabras)
    (k : str) (datos : list Dato) :
  In (k, datos) (agregar clave d pc) ->
  (exists datos', In (k, datos') pc) \/ k = clave.
Proof.
  induction pc as [|[k0 ds] r IH]; cbn.
  - intros [[= <- _]|[]]. now right.
  - destruct (str_eqb k0 clave) eqn:E.
    + intros [[= <- _]|H]; left; eauto.
    + intros [[= <- <-]|H]; [left; eauto|].
      apply IH in H as [(datos' & H)|H]; [left; eauto|now right].
Qed.

Lemma cargar_claves (filas : list Dato) (k : str) (datos : list Dato) :
  In (k, datos) (cargar_palabras_clave filas) ->
  exists fila, In fila filas /\ k = normalizar_texto (palabra_original fila).
Proof.
  unfold cargar_palabras_clave.
  assert (G : forall l acc,
             (forall k datos, In (k, datos) acc ->
                exists fila, In fila filas /\
                             k = normalizar_texto (palabra_original fila)) ->
             incl l filas ->
             forall k datos,
               In (k, datos)
                  (fold_left
                     (fun palabras fila =>
                        agregar (normalizar_texto (palabra_original fila))
                                fila palabras) l acc) ->
               exists fila, In fila filas /\
                            k = normalizar_texto (palabra_original fila)).
  { induction l as [|d l IH]; cbn; intros acc Hacc Hl k' datos' H.
    - eauto.
    - apply (IH _) in H; trivial.
      + intros k1 datos1 H1. apply agregar_claves in H1 as [(ds & H1)| ->].
        * eauto.
        * exists d. split; trivial. apply Hl. now left.
      + intros x Hx. apply Hl. now right. }
  apply G.
  - intros ? ? [].
  - apply incl_refl.
Qed.

End Carga.

(* ================================================================== *)
(** * The claims *)
(* ================================================================== *)

Section Confianza.

Lemma factor_categoria_verdadero (d : Dato) :
  factor_categoria d =
  if negb (verdadero (categoria_padre d)) then f0_9 else f1_1.
Proof.
  unfold factor_categoria, verdadero.
  destruct (categoria_padre d) as [|z|[|c s]]; trivial.
  now destruct (z =? 0)%Z.
Qed.

Lemma confianza_repuesto_pasos (completa : bool) (d : Dato) :
  confianza_repuesto completa d =
  py_min (fdiv (fmul (tras_sinonimo completa d) (factor_categoria d)) f2_0)
         f1_0.
Proof.
  unfold confianza_repuesto, tras_sinonimo.
  rewrite factor_categoria_verdadero.
  now destruct (negb (verdadero (categoria_padre d))).
Qed.

Lemma confianza_trabajo_pasos (completa : bool) (d : Dato) :
  confianza_trabajo completa d =
  py_min (fdiv (tras_complejidad d
                  (fmul (tras_sinonimo completa d) (factor_categoria d)))
               f2_0)
         f1_0.
Proof.
  unfold confianza_trabajo, tras_sinonimo, tras_complejidad.
  rewrite factor_categoria_verdadero.
  now destruct (negb (verdadero (categoria_padre d))).
Qed.

Lemma detectar_origen (calcular : bool -> Dato -> float)
    (texto : str) (pc : Palabras) (umbral : float)
    (m : ClasificacionResultado) :
  In m (clasificaciones (detectar calcular texto pc umbral)) ->
  exists k datos d,
    In (k, datos) pc /\ In d datos /\
    contiene k (normalizar_texto texto) = true /\
    m = resultado_de d
          (calcular (palabra_completa k (normalizar_texto texto)) d).
Proof.
  rewrite detectar_clasificaciones. intros H.
  apply finales_candidato, in_candidatos in H
    as (k & datos & d & H1 & H2 & H3 & _ & ->).
  exists k, datos, d. auto.
Qed.

End Confianza.

(** C1 (as the code has it).  Every match returned by either detector
    comes from a taxonomy row whose keyword occurs in the normalised text,
    and its confidence is computed in this order: the value left by the
    synonym step is multiplied by 0.9 when the parent column is null (or
    0, or empty) and by 1.1 when the row has a parent; the labour detector
    then applies its complexity step; the result is halved and capped at
    1.0. *)
Theorem C1_factor_por_categoria_padre
    (texto : str) (pc : Palabras) (umbral : float)
    (m : ClasificacionResultado) :
  (In m (clasificaciones (detectar_repuestos texto pc umbral)) ->
   exists k datos d,
     In (k, datos) pc /\ In d datos /\
     contiene k (normalizar_texto texto) = true /\
     categoria m = categoria_nombre d /\
     factor_categoria d =
       (if verdadero (categoria_padre d) then f1_1 else f0_9) /\
     confianza m =
       py_min
         (fdiv (fmul (tras_sinonimo
                        (palabra_completa k (normalizar_texto texto)) d)
                     (factor_categoria d))
               f2_0)
         f1_0) /\
  (In m (clasificaciones (detectar_trabajos texto pc umbral)) ->
   exists k datos d,
     In (k, datos) pc /\ In d datos /\
     contiene k (normalizar_texto texto) = true /\
     categoria m = categoria_nombre d /\
     factor_categoria d =
       (if verdadero (categoria_padre d) then f1_1 else f0_9) /\
     confianza m =
       py_min
         (fdiv (tras_complejidad d
                  (fmul (tras_sinonimo
                           (palabra_completa k (normalizar_texto texto)) d)
                        (factor_categoria d)))
               f2_0)
         f1_0).
Proof.
  split; intros H; apply detectar_origen in H
    as (k & datos & d & H1 & H2 & H3 & ->);
    exists k, datos, d; repeat split; trivial;
    try (rewrite factor_categoria_verdadero;
         now destruct (verdadero (categoria_padre d))).
  - apply confianza_repuesto_pasos.
  - apply confianza_trabajo_pasos.
Qed.

(** C1, instance: the text "filtro" against the root category "Filtros"
    and the text "manguera" against a category with a parent. *)
Lemma C1_factor_witness :
  In (resultado_de Ejemplos.filtro (decimal 675 1000))
     (clasificaciones
        (detectar_repuestos (u "filtro") Ejemplos.palabras_filtros f0_3)) /\
  (exists k datos d,
     In (k, datos) Ejemplos.palabras_filtros /\ In d datos /\
     contiene k (normalizar_texto (u "filtro")) = true /\
     u "Filtros" = categoria_nombre d /\
     factor_categoria d =
       (if verdadero (categoria_padre d) then f1_1 else f0_9) /\
     decimal 675 1000 =
       py_min
         (fdiv (fmul (tras_sinonimo
                        (palabra_completa k (normalizar_texto (u "filtro")))
                        d)
                     (factor_categoria d))
               f2_0)
         f1_0).
Proof.
  assert (H : In (resultado_de Ejemplos.filtro (decimal 675 1000))
                 (clasificaciones
                    (detectar_repuestos (u "filtro")
                       Ejemplos.palabras_filtros f0_3)))
    by (vm_compute; now left).
  split; [exact H|].
  exact (proj1 (C1_factor_por_categoria_padre (u "filtro")
                  Ejemplos.palabras_filtros f0_3
                  (resultado_de Ejemplos.filtro (decimal 675 1000))) H).
Defined.

(** C1 (as the specification words it) fails: "filtro" is a keyword of
    weight 1.0 of the root category "Filtros" and is found as a whole
    word, so the claim gives 1.0 * 1.5 * 1.1 / 2.0; the detector returns
    0.675 = 1.0 * 1.5 * 0.9 / 2.0. *)
Lemma C1_counterexample :
  categoria_padre Ejemplos.filtro = Nulo /\
  palabra_completa (u "filtro") (normalizar_texto (u "filtro")) = true /\
  map confianza
      (clasificaciones
         (detectar_repuestos (u "filtro") (cargar_palabras_clave [Ejemplos.filtro]) f0_3))
    = [decimal 675 1000] /\
  confianza_repuesto true Ejemplos.filtro = decimal 675 1000 /\
  confianza_repuesto_spec true Ejemplos.filtro
    = fdiv (fmul (fmul f1_0 f1_5) f1_1) f2_0 /\
  confianza_repuesto true Ejemplos.filtro
    <> confianza_repuesto_spec true Ejemplos.filtro.
Proof.
  repeat split; try (vm_compute; reflexivity).
  vm_compute. discriminate.
Qed.

(** C2 (failing input).  The text "a, b" normalises to "a  b", with two
    spaces, because the runs of white space are collapsed before the comma
    is replaced by a space; normalising that result once more gives
    "a b".  The same happens to the first sample of [test_motor]. *)
Theorem C2_normalizar_no_idempotente :
  normalizar_texto (u "a, b") = u "a  b" /\
  normalizar_texto (normalizar_texto (u "a, b")) = u "a b" /\
  normalizar_texto (normalizar_texto (u "a, b"))
    <> normalizar_texto (u "a, b") /\
  normalizar_texto (u "Repuestos: 1 filtro de aceite, 2 litros")
    = u "repuestos  1 filtro de aceite  2 litros" /\
  normalizar_texto
      (normalizar_texto (u "Repuestos: 1 filtro de aceite, 2 litros"))
    = u "repuestos 1 filtro de aceite 2 litros".
Proof.
  repeat split; try reflexivity. vm_compute. discriminate.
Qed.

Section Registro.

Variables (pr pt : Palabras).

Lemma analizar_sin_id (d : str) (db : Almacen) :
  d <> [] ->
  analizar_mantenimiento_completo pr pt (Some d) None db =
  Ok (informe_de (detectar_repuestos (fst (separar d)) pr f0_3)
                 (detectar_trabajos (snd (separar d)) pt f0_3), db).
Proof.
  intros Hd. unfold analizar_mantenimiento_completo.
  destruct d as [|c r]; [congruence|].
  now destruct (separar (c :: r)).
Qed.

Lemma analizar_con_id (d : str) (z : Z) (db : Almacen) :
  d <> [] -> z <> 0%Z ->
  analizar_mantenimiento_completo pr pt (Some d) (Some z) db =
  bind (bind (guardar_si_mejor z
                (detectar_repuestos (fst (separar d)) pr f0_3)
                (u "repuesto") db)
             (fun db1 =>
                guardar_si_mejor z
                  (detectar_trabajos (snd (separar d)) pt f0_3)
                  (u "trabajo") db1))
       (fun db2 =>
          Ok (informe_de (detectar_repuestos (fst (separar d)) pr f0_3)
                         (detectar_trabajos (snd (separar d)) pt f0_3),
              db2)).
Proof.
  intros Hd Hz. unfold analizar_mantenimiento_completo.
  destruct d as [|c r]; [congruence|].
  destruct (separar (c :: r)) as [tr tt]. cbn [fst snd id_verdadero].
  destruct (Z.eqb_spec z 0); [congruence|reflexivity].
Qed.

Lemma analizar_id_falso (descripcion : option str) (id : option Z)
    (db : Almacen) :
  id_verdadero id = None ->
  analizar_mantenimiento_completo pr pt descripcion id db =
  analizar_mantenimiento_completo pr pt descripcion None db.
Proof.
  intros H. unfold analizar_mantenimiento_completo. rewrite H.
  reflexivity.
Qed.

Lemma guardar_acepta_igual (z : Z) (det : DeteccionCompleta) (tipo : str)
    (db db1 : Almacen) :
  guardar_si_mejor z det tipo db = Ok db1 -> acepta db1 = acepta db.
Proof.
  unfold guardar_si_mejor, guardar_clasificacion, insertar_fila.
  destruct (mejor_clasificacion det); [|now intros [= <-]].
  destruct (acepta db _); [now intros [= <-]|discriminate].
Qed.

Lemma guardar_rechazada (z : Z) (det : DeteccionCompleta) (tipo : str)
    (db : Almacen) (m : ClasificacionResultado) :
  mejor_clasificacion det = Some m ->
  acepta db (fila_de z det tipo m) = false ->
  guardar_si_mejor z det tipo db = Raise OperationalError.
Proof.
  intros Hm Hno.
  unfold guardar_si_mejor, guardar_clasificacion, insertar_fila.
  now rewrite Hm, Hno.
Qed.

End Registro.

(** C3 (as the code has it).  With a non-empty description and a non-zero
    record id, a refused audit write is raised to the caller of the
    analysis, for the spare-parts pass and for the labour pass alike, and
    no report is returned.  Whenever the analysis does return, its report
    is the one of the same call without record id, which leaves the audit
    table untouched. *)
Theorem C3_fallo_de_registro_se_propaga
    (pr pt : Palabras) (d : str) (z : Z) (db : Almacen) :
  d <> [] -> z <> 0%Z ->
  let dr := detectar_repuestos (fst (separar d)) pr f0_3 in
  let dt := detectar_trabajos (snd (separar d)) pt f0_3 in
  (forall m, mejor_clasificacion dr = Some m ->
             acepta db (fila_de z dr (u "repuesto") m) = false ->
             analizar_mantenimiento_completo pr pt (Some d) (Some z) db
             = Raise OperationalError) /\
  (forall m, mejor_clasificacion dt = Some m ->
             acepta db (fila_de z dt (u "trabajo") m) = false ->
             analizar_mantenimiento_completo pr pt (Some d) (Some z) db
             = Raise OperationalError) /\
  (forall informe db',
      analizar_mantenimiento_completo pr pt (Some d) (Some z) db
      = Ok (informe, db') ->
      analizar_mantenimiento_completo pr pt (Some d) None db
      = Ok (informe, db)).
Proof.
  intros Hd Hz dr dt. rewrite analizar_con_id, analizar_sin_id by trivial.
  fold dr dt. repeat split.
  - intros m Hm Hno. now rewrite (guardar_rechazada z dr _ db m Hm Hno).
  - intros m Hm Hno.
    destruct (guardar_si_mejor z dr (u "repuesto") db) as [db1|[]] eqn:E1;
      [|reflexivity].
    cbn [bind]. rewrite (guardar_rechazada z dt _ db1 m Hm); trivial.
    now rewrite (guardar_acepta_igual _ _ _ _ _ E1).
  - intros informe db'.
    destruct (guardar_si_mejor z dr (u "repuesto") db) as [db1|e]; cbn [bind];
      [|discriminate].
    destruct (guardar_si_mejor z dt (u "trabajo") db1) as [db2|e]; cbn [bind];
      [|discriminate].
    now intros [= <- _].
Qed.

(** C3, instance: the description "filtro" for record 7 against a
    database that refuses every row. *)
Lemma C3_fallo_witness :
  (u "filtro" <> [] /\ 7%Z <> 0%Z) /\
  analizar_mantenimiento_completo Ejemplos.palabras_filtros
    Ejemplos.palabras_service (Some (u "filtro")) (Some 7%Z)
    Ejemplos.db_cerrada
  = Raise OperationalError.
Proof.
  assert (Hd : u "filtro" <> []) by discriminate.
  assert (Hz : 7%Z <> 0%Z) by discriminate.
  split; [now split|].
  apply (proj1 (C3_fallo_de_registro_se_propaga Ejemplos.palabras_filtros
                  Ejemplos.palabras_service (u "filtro") 7 Ejemplos.db_cerrada
                  Hd Hz)
               (resultado_de Ejemplos.filtro (decimal 675 1000)));
    reflexivity.
Defined.

(** C3 (as the specification words it) fails: the audit write of the
    spare-parts pass is refused, and the analysis raises instead of
    returning the report that the call without record id returns. *)
Lemma C3_counterexample :
  insertar_fila
    (fila_de 7
       (detectar_repuestos (u " filtro") Ejemplos.palabras_filtros f0_3)
       (u "repuesto") (resultado_de Ejemplos.filtro (decimal 675 1000)))
    Ejemplos.db_cerrada
  = Raise OperationalError /\
  analizar_mantenimiento_completo Ejemplos.palabras_filtros
    Ejemplos.palabras_service (Some (u "filtro")) (Some 7%Z)
    Ejemplos.db_cerrada
  = Raise OperationalError /\
  exists informe,
    analizar_mantenimiento_completo Ejemplos.palabras_filtros
      Ejemplos.palabras_service (Some (u "filtro")) None Ejemplos.db_cerrada
    = Ok (informe, Ejemplos.db_cerrada).
Proof.
  repeat split; try reflexivity. eexists. reflexivity.
Qed.

Section TextoVacio.

Variable calcular : bool -> Dato -> float.

Lemma candidatos_texto_vacio (umbral : float) (pc : Palabras) :
  (forall k datos, In (k, datos) pc -> k <> []) ->
  candidatos calcular [] umbral pc = [].
Proof.
  unfold candidatos.
  induction pc as [|[k datos] r IH]; cbn [flat_map]; intros H; trivial.
  rewrite (contiene_vacio k) by (apply (H k datos); now left).
  apply IH. intros k' datos' Hin. apply (H k' datos'). now right.
Qed.

Lemma detectar_espacios (texto : str) (pc : Palabras) (umbral : float) :
  (forall k datos, In (k, datos) pc -> k <> []) ->
  forallb es_espacio texto = true ->
  detectar calcular texto pc umbral = deteccion_vacia texto.
Proof.
  intros Hpc Ht. unfold detectar.
  rewrite (normalizar_espacios texto Ht).
  now rewrite (candidatos_texto_vacio umbral pc Hpc).
Qed.

End TextoVacio.

(** C4 (as the code has it).  When no keyword of the taxonomy has an
    empty normalised form, both detectors answer an empty or white-space
    text with the empty result: normalised text empty, no match, no best
    match, confidence 0.0.  A missing or empty description is answered,
    for every taxonomy and record id, with the empty report (no parts, no
    labour, both confidences 0.0) and the audit table is not written. *)
Theorem C4_entrada_vacia
    (pc : Palabras) (texto : str) (umbral : float) :
  (forall k datos, In (k, datos) pc -> k <> []) ->
  forallb es_espacio texto = true ->
  detectar_repuestos texto pc umbral = deteccion_vacia texto /\
  detectar_trabajos texto pc umbral = deteccion_vacia texto /\
  (forall pr pt id db,
      analizar_mantenimiento_completo pr pt None id db
      = Ok (informe_vacio, db) /\
      analizar_mantenimiento_completo pr pt (Some []) id db
      = Ok (informe_vacio, db)) /\
  repuestos informe_vacio = [] /\ trabajos informe_vacio = [] /\
  confianza_repuestos informe_vacio = f0_0 /\
  confianza_trabajos informe_vacio = f0_0.
Proof.
  intros Hpc Ht. repeat split; try reflexivity.
  - now apply detectar_espacios.
  - now apply detectar_espacios.
Qed.

(** C4, instance: a text of two spaces and a tabulation against the
    taxonomy of "Filtros". *)
Lemma C4_entrada_vacia_witness :
  forallb es_espacio [0x20; 0x20; 0x09]%N = true /\
  detectar_repuestos [0x20; 0x20; 0x09]%N Ejemplos.palabras_filtros f0_3
  = deteccion_vacia [0x20; 0x20; 0x09]%N.
Proof.
  split; [reflexivity|].
  apply (C4_entrada_vacia Ejemplos.palabras_filtros [0x20; 0x20; 0x09]%N f0_3).
  - intros k datos H. vm_compute in H.
    destruct H as [H|[H|[]]]; injection H as <- _; discriminate.
  - reflexivity.
Defined.

(** C4 (as the specification words it) fails: the keyword "!!!"
    normalises to the empty string, which is a substring of the empty
    text, so the empty text is classified as "Varios" with confidence
    0.45. *)
Lemma C4_counterexample :
  normalizar_texto (palabra_original Ejemplos.signos) = [] /\
  map categoria
      (clasificaciones (detectar_repuestos [] Ejemplos.palabras_signos f0_3))
    = [u "Varios"] /\
  option_map categoria
      (mejor_clasificacion
         (detectar_repuestos [] Ejemplos.palabras_signos f0_3))
    = Some (u "Varios") /\
  confianza_total (detectar_repuestos [] Ejemplos.palabras_signos f0_3)
    = decimal 45 100 /\
  detectar_repuestos [] Ejemplos.palabras_signos f0_3 <> deteccion_vacia [].
Proof.
  repeat split; try (vm_compute; reflexivity).
  vm_compute. discriminate.
Qed.

(** C5.  For both detectors, every text and every taxonomy: when the
    threshold [t1] is at most [t2], the detection with [t2] returns at
    most as many matches as the detection with [t1]. *)
Theorem C5_umbral_monotono
    (texto : str) (pc : Palabras) (t1 t2 : float) :
  fleb t1 t2 = true ->
  (List.length (clasificaciones (detectar_repuestos texto pc t2))
   <= List.length (clasificaciones (detectar_repuestos texto pc t1)))%nat /\
  (List.length (clasificaciones (detectar_trabajos texto pc t2))
   <= List.length (clasificaciones (detectar_trabajos texto pc t1)))%nat.
Proof.
  intros Ht. unfold detectar_repuestos, detectar_trabajos.
  rewrite !detectar_clasificaciones.
  split; apply finales_length_incl; now apply candidatos_umbral.
Qed.

(** C5, instance: thresholds 0.3 and 0.7 on "filtro de aceite". *)
Lemma C5_umbral_monotono_witness :
  fleb f0_3 (decimal 7 10) = true /\
  (List.length
     (clasificaciones
        (detectar_repuestos (u "filtro de aceite") Ejemplos.palabras_filtros
           (decimal 7 10)))
   <= List.length
        (clasificaciones
           (detectar_repuestos (u "filtro de aceite")
              Ejemplos.palabras_filtros f0_3)))%nat.
Proof.
  split; [reflexivity|].
  apply (C5_umbral_monotono (u "filtro de aceite") Ejemplos.palabras_filtros
           f0_3 (decimal 7 10)).
  reflexivity.
Defined.

Section Invariantes.

Variable calcular : bool -> Dato -> float.

Lemma detectar_unico_ganador (texto : str) (pc : Palabras) (umbral : float)
    (m : ClasificacionResultado) :
  In m (clasificaciones (detectar calcular texto pc umbral)) ->
  unico_ganador calcular texto pc umbral m.
Proof.
  rewrite detectar_clasificaciones. intros H. unfold unico_ganador.
  pose proof (finales_candidato _ _ H) as Hc. repeat split; trivial.
  - apply in_candidatos in Hc as (k & datos & d & H1 & H2 & H3 & _ & ->).
    exists k, datos, d. auto.
  - intros c Hcand E.
    apply (finales_maximo _ m c (candidatos_sin_nan _ _ _ _) H Hcand E).
Qed.

Lemma detectar_conserva_categoria (texto : str) (pc : Palabras)
    (umbral : float) (c : ClasificacionResultado) :
  In c (candidatos calcular (normalizar_texto texto) umbral pc) ->
  exists m,
    In m (clasificaciones (detectar calcular texto pc umbral)) /\
    categoria m = categoria c /\
    fleb (confianza c) (confianza m) = true.
Proof.
  intros Hc. rewrite detectar_clasificaciones.
  destruct (unicas_registra _ c (candidatos_sin_nan _ _ _ _) Hc)
    as (v & Hv & L).
  pose proof (proj2 (unicas_origen _ _ _ Hv)) as Ek. rewrite Ek in Hv.
  exists v. split; [now apply finales_In|]. split; [now symmetry|exact L].
Qed.

End Invariantes.

(** C6.  In the result of either detector no two matches have the same
    category name; every match is one of the candidates that reached the
    threshold, and no candidate of its category has a greater
    confidence; and every category that has a candidate is kept: each
    candidate finds in the result a match of its category whose
    confidence is at least its own.  So the candidates of one category
    collapse to one match, the one of highest confidence. *)
Theorem C6_una_clasificacion_por_categoria
    (texto : str) (pc : Palabras) (umbral : float) :
  (NoDup (map categoria (clasificaciones (detectar_repuestos texto pc umbral)))
   /\ (forall m,
        In m (clasificaciones (detectar_repuestos texto pc umbral)) ->
        In m (candidatos confianza_repuesto (normalizar_texto texto) umbral pc)
        /\ forall c,
             In c (candidatos confianza_repuesto (normalizar_texto texto)
                     umbral pc) ->
             categoria c = categoria m ->
             fleb (confianza c) (confianza m) = true)
   /\ (forall c,
        In c (candidatos confianza_repuesto (normalizar_texto texto)
                umbral pc) ->
        exists m,
          In m (clasificaciones (detectar_repuestos texto pc umbral)) /\
          categoria m = categoria c /\
          fleb (confianza c) (confianza m) = true)) /\
  (NoDup (map categoria (clasificaciones (detectar_trabajos texto pc umbral)))
   /\ (forall m,
        In m (clasificaciones (detectar_trabajos texto pc umbral)) ->
        In m (candidatos confianza_trabajo (normalizar_texto texto) umbral pc)
        /\ forall c,
             In c (candidatos confianza_trabajo (normalizar_texto texto)
                     umbral pc) ->
             categoria c = categoria m ->
             fleb (confianza c) (confianza m) = true)
   /\ (forall c,
        In c (candidatos confianza_trabajo (normalizar_texto texto)
                umbral pc) ->
        exists m,
          In m (clasificaciones (detectar_trabajos texto pc umbral)) /\
          categoria m = categoria c /\
          fleb (confianza c) (confianza m) = true)).
Proof.
  unfold detectar_repuestos, detectar_trabajos.
  split; (split; [rewrite detectar_clasificaciones; apply finales_NoDup|]);
    (split; [|intros c Hc; now apply detectar_conserva_categoria]);
    intros m Hm; apply detectar_unico_ganador in Hm as (_ & H1 & H2);
    auto.
Qed.

(** C7.  In the result of either detector the matches are ranked by
    non-increasing confidence, the best match is the first of the list
    (none when the list is empty), and the overall confidence is the
    confidence of that first match, or 0.0 when the list is empty. *)
Theorem C7_orden_y_confianza_total
    (texto : str) (pc : Palabras) (umbral : float) :
  let dr := detectar_repuestos texto pc umbral in
  let dt := detectar_trabajos texto pc umbral in
  (StronglySorted no_menor (clasificaciones dr) /\
   mejor_clasificacion dr = hd_error (clasificaciones dr) /\
   confianza_total dr = match clasificaciones dr with
                        | [] => f0_0
                        | m :: _ => confianza m
                        end) /\
  (StronglySorted no_menor (clasificaciones dt) /\
   mejor_clasificacion dt = hd_error (clasificaciones dt) /\
   confianza_total dt = match clasificaciones dt with
                        | [] => f0_0
                        | m :: _ => confianza m
                        end).
Proof.
  cbv zeta. unfold detectar_repuestos, detectar_trabajos.
  split; (split; [|split; [reflexivity|apply detectar_total]]);
    rewrite detectar_clasificaciones; apply finales_sorted,
      candidatos_sin_nan.
Qed.

(** C8.  A non-empty description is cut at every bar: joining the segments
    with bars gives the description back and no segment contains a bar.
    Each segment is stripped; the spare-parts text receives, in order and
    each preceded by a space, the segments whose lower-cased text starts
    with "repuesto" and the segments with neither label; the labour text
    receives those starting with "trabajo" and the segments with neither
    label.  The report is built from the spare-parts detection of the
    first text and the labour detection of the second. *)
Theorem C8_separacion_por_etiquetas (d : str) :
  d <> [] ->
  let partes := split barra d in
  join barra partes = d /\
  Forall (fun p => ~ In barra p) partes /\
  separar d =
    (flat_map (aporte (fun p => etiqueta_repuesto p || sin_etiqueta p))
              (map strip partes),
     flat_map (aporte (fun p => etiqueta_trabajo p || sin_etiqueta p))
              (map strip partes)) /\
  forall pr pt db,
    analizar_mantenimiento_completo pr pt (Some d) None db =
    Ok (informe_de (detectar_repuestos (fst (separar d)) pr f0_3)
                   (detectar_trabajos (snd (separar d)) pt f0_3), db).
Proof.
  intros Hd partes. repeat split.
  - apply join_split.
  - apply split_sin_separador.
  - unfold separar. fold partes. now rewrite separar_aportes.
  - intros pr pt db. now apply analizar_sin_id.
Qed.

(** C8, instance: a labelled parts segment in capitals, a labelled labour
    segment and a segment without label. *)
Lemma C8_separacion_witness :
  u "REPUESTOS: filtro | Trabajo: service |revision" <> [] /\
  separar (u "REPUESTOS: filtro | Trabajo: service |revision") =
    (u " REPUESTOS: filtro revision", u " Trabajo: service revision").
Proof.
  assert (Hd : u "REPUESTOS: filtro | Trabajo: service |revision" <> [])
    by discriminate.
  split; [exact Hd|].
  rewrite (proj1 (proj2 (proj2
             (C8_separacion_por_etiquetas
                (u "REPUESTOS: filtro | Trabajo: service |revision") Hd)))).
  reflexivity.
Defined.

(** C9.  Every match returned by either detector is the candidate of one
    taxonomy row that won its category: its keyword list holds the keyword
    of that row and nothing else, and no candidate of the same category
    has a greater confidence. *)
Theorem C9_una_palabra_por_clasificacion
    (texto : str) (pc : Palabras) (umbral : float)
    (m : ClasificacionResultado) :
  (In m (clasificaciones (detectar_repuestos texto pc umbral)) ->
   unico_ganador confianza_repuesto texto pc umbral m) /\
  (In m (clasificaciones (detectar_trabajos texto pc umbral)) ->
   unico_ganador confianza_trabajo texto pc umbral m).
Proof.
  split; apply detectar_unico_ganador.
Qed.

(** C9, instance: "filtro" and "aceite" are both keywords of "Filtros"
    and both reach the threshold in "filtro de aceite"; the single match
    carries "filtro" alone. *)
Lemma C9_una_palabra_witness :
  map palabras_encontradas
      (candidatos confianza_repuesto
         (normalizar_texto (u "filtro de aceite")) f0_3
         Ejemplos.palabras_filtros)
    = [[u "filtro"]; [u "aceite"]] /\
  map palabras_encontradas
      (clasificaciones
         (detectar_repuestos (u "filtro de aceite")
            Ejemplos.palabras_filtros f0_3))
    = [[u "filtro"]] /\
  In (resultado_de Ejemplos.filtro (decimal 675 1000))
     (clasificaciones
        (detectar_repuestos (u "filtro de aceite")
           Ejemplos.palabras_filtros f0_3)) /\
  unico_ganador confianza_repuesto (u "filtro de aceite")
    Ejemplos.palabras_filtros f0_3
    (resultado_de Ejemplos.filtro (decimal 675 1000)).
Proof.
  assert (H : In (resultado_de Ejemplos.filtro (decimal 675 1000))
                 (clasificaciones
                    (detectar_repuestos (u "filtro de aceite")
                       Ejemplos.palabras_filtros f0_3)))
    by (vm_compute; now left).
  split; [reflexivity|]. split; [reflexivity|]. split; [exact H|].
  exact (proj1 (C9_una_palabra_por_clasificacion (u "filtro de aceite")
                  Ejemplos.palabras_filtros f0_3
                  (resultado_de Ejemplos.filtro (decimal 675 1000))) H).
Defined.

(** C10.  A record id equal to 0 gives the analysis of the call without
    record id: the same outcome, which is a report together with the
    audit table as it was. *)
Theorem C10_id_cero_como_ausente
    (pr pt : Palabras) (descripcion : option str) (db : Almacen) :
  analizar_mantenimiento_completo pr pt descripcion (Some 0%Z) db
  = analizar_mantenimiento_completo pr pt descripcion None db /\
  exists informe,
    analizar_mantenimiento_completo pr pt descripcion (Some 0%Z) db
    = Ok (informe, db).
Proof.
  split.
  - now apply analizar_id_falso.
  - rewrite analizar_id_falso by reflexivity.
    destruct descripcion as [[|c r]|]; try (eexists; reflexivity).
    eexists. apply analizar_sin_id. discriminate.
Qed.

(* ================================================================== *)
(** * The model on sample inputs *)
(* ================================================================== *)

Section Comprobaciones.

(** Accented and plain spellings meet after normalisation. *)
Example normalizar_valvula :
  normalizar_texto [0x76; 0xE1; 0x4C; 0x76; 0x75; 0x6C; 0x61]%N = u "valvula"
  /\ normalizar_texto (u "valvula") = u "valvula".
Proof. split; reflexivity. Qed.

(** The first sample text of [test_motor], with "filtro" a keyword of the
    root category "Filtros" and "service" one of "Mantenimiento General":
    both are found, each with 67.5 percent. *)
Example analizar_ejemplo :
  exists informe db,
    analizar_mantenimiento_completo Ejemplos.palabras_filtros
      Ejemplos.palabras_service
      (Some (u "Repuestos: 1 filtro de aceite, 2 litros aceite hidraulico | Trabajo realizado: Service general completo"))
      (Some 7%Z) Ejemplos.db_abierta
    = Ok (informe, db) /\
    mejor_repuesto informe = Presente (Some (u "Filtros")) /\
    mejor_trabajo informe = Presente (Some (u "Mantenimiento General")) /\
    confianza_repuestos informe = decimal 675 10 /\
    confianza_trabajos informe = decimal 675 10 /\
    resumen informe = u "Detectados 1 tipos de repuestos y 1 tipos de trabajos" /\
    map reg_tipo (filas db) = [u "repuesto"; u "trabajo"].
Proof.
  eexists. eexists. split; [vm_compute; reflexivity|].
  repeat split; vm_compute; reflexivity.
Qed.

(** A whole word earns the 1.5 bonus; a keyword inside a longer word does
    not. *)
Example palabra_completa_ejemplo :
  palabra_completa (u "filtro") (u "cambio filtro aire") = true /\
  palabra_completa (u "filtro") (u "cambio filtros aire") = false /\
  contiene (u "filtro") (u "cambio filtros aire") = true.
Proof. repeat split; reflexivity. Qed.

End Comprobaciones.

(* ================================================================== *)
(** * Further properties: normalisation *)
(* ================================================================== *)

Section Tablas.

Local Open Scope N_scope.

Lemma descomponer_fuera (c : N) : 1024 <= c -> descomponer c = [c].
Proof.
  intros H. destruct c as [|p]; [lia|].
  do 10 (destruct p as [p|p|]; [| |exfalso; lia]).
  all: reflexivity.
Qed.

Lemma minuscula_fuera (c : N) : 1024 <= c -> minuscula c = c.
Proof.
  intros H. unfold minuscula.
  replace (c <=? 0x5A) with false by (symmetry; apply N.leb_gt; lia).
  replace (c <=? 0xDE) with false by (symmetry; apply N.leb_gt; lia).
  now rewrite !andb_false_r.
Qed.

Lemma es_Mn_fuera (c : N) : 1024 <= c -> es_Mn c = false.
Proof.
  intros H. unfold es_Mn.
  replace (c <=? 0x36F) with false by (symmetry; apply N.leb_gt; lia).
  now rewrite andb_false_r.
Qed.

Lemma es_palabra_fuera (c : N) : 1024 <= c -> es_palabra c = false.
Proof.
  intros H. unfold es_palabra.
  repeat match goal with
  | |- context [c <=? ?k] =>
      replace (c <=? k) with false by (symmetry; apply N.leb_gt; lia)
  | |- context [c =? ?k] =>
      replace (c =? k) with false by (symmetry; apply N.eqb_neq; lia)
  end.
  now rewrite !andb_false_r.
Qed.

Lemma por_casos (P : N -> bool) :
  forallb P (map N.of_nat (seq 0 1024)) = true ->
  (forall c, 1024 <= c -> P c = true) ->
  forall c, P c = true.
Proof.
  intros Hpeq Hgr c. destruct (N.lt_ge_cases c 1024) as [H|H]; [|auto].
  rewrite forallb_forall in Hpeq. apply Hpeq.
  apply in_map_iff. exists (N.to_nat c). split; [apply N2Nat.id|].
  apply in_seq. lia.
Qed.

End Tablas.

Section Caracteres.

Local Open Scope N_scope.

Lemma base_de_fuera (c : N) : 1024 <= c -> base_de c = [c].
Proof.
  intros H. unfold base_de.
  rewrite (minuscula_fuera c H), (descomponer_fuera c H). cbn.
  now rewrite (es_Mn_fuera c H).
Qed.

Lemma estable_fuera (c : N) : 1024 <= c -> estable c = true.
Proof.
  intros H. unfold estable.
  rewrite (minuscula_fuera c H), (descomponer_fuera c H), (es_Mn_fuera c H).
  now rewrite N.eqb_refl, str_eqb_refl.
Qed.

Lemma minuscula_idem (c : N) : minuscula (minuscula c) = minuscula c.
Proof.
  apply N.eqb_eq.
  apply (por_casos (fun c => minuscula (minuscula c) =? minuscula c)).
  - vm_compute. reflexivity.
  - intros x H. rewrite !(minuscula_fuera x H). apply N.eqb_refl.
Qed.

Lemma base_de_estable (c : N) : forallb estable (base_de c) = true.
Proof.
  apply (por_casos (fun c => forallb estable (base_de c))).
  - vm_compute. reflexivity.
  - intros x H. rewrite (base_de_fuera x H). cbn.
    now rewrite (estable_fuera x H).
Qed.

Lemma base_de_minuscula (c : N) : base_de (minuscula c) = base_de c.
Proof. unfold base_de. now rewrite minuscula_idem. Qed.

Lemma base_de_sin_acento (c : N) : base_de (sin_acento c) = base_de c.
Proof.
  apply str_eqb_eq.
  apply (por_casos (fun c => str_eqb (base_de (sin_acento c)) (base_de c))).
  - vm_compute. reflexivity.
  - intros x H. unfold sin_acento. rewrite (descomponer_fuera x H).
    apply str_eqb_refl.
Qed.

Lemma base_de_palabra (c : N) :
  es_palabra c = true -> forallb es_palabra (base_de c) = true.
Proof.
  intros H.
  assert (G : implb (es_palabra c) (forallb es_palabra (base_de c)) = true).
  { apply (por_casos
             (fun c => implb (es_palabra c) (forallb es_palabra (base_de c)))).
    - vm_compute. reflexivity.
    - intros x Hx. now rewrite (es_palabra_fuera x Hx). }
  now rewrite H in G.
Qed.

Lemma estable_base_de (c : N) : estable c = true -> base_de c = [c].
Proof.
  unfold estable, base_de. intros H.
  apply andb_true_iff in H as [H H3]. apply andb_true_iff in H as [H1 H2].
  apply N.eqb_eq in H1. apply str_eqb_eq in H2. rewrite H1, H2. cbn.
  now rewrite H3.
Qed.

Lemma espacio_base_de (c : N) : es_espacio c = true -> base_de c = [c].
Proof.
  intros H. destruct (espacio_estable c H) as (H1 & H2 & H3).
  unfold base_de. rewrite H1, H2. cbn. now rewrite H3.
Qed.

Lemma espacio_estable_b (c : N) : es_espacio c = true -> estable c = true.
Proof.
  intros H. destruct (espacio_estable c H) as (H1 & H2 & H3).
  unfold estable. rewrite H1, H2, H3.
  now rewrite N.eqb_refl, str_eqb_refl.
Qed.

Lemma limpio_visible (c : N) :
  limpio c = true -> es_palabra c || es_espacio c = true.
Proof.
  unfold limpio. intros H. apply orb_true_iff in H as [H|H].
  - now rewrite H.
  - apply N.eqb_eq in H. subst c. apply orb_true_r.
Qed.

Lemma limpio_espacio (c : N) :
  limpio c = true -> es_espacio c = true -> c = 0x20.
Proof.
  unfold limpio. intros H E. apply orb_true_iff in H as [H|H].
  - exfalso. apply es_espacio_casos in E. cbn [In] in E.
    repeat (destruct E as [<-|E]; [discriminate H|]). destruct E.
  - now apply N.eqb_eq in H.
Qed.

End Caracteres.

Section Recorte.

Local Open Scope N_scope.

Lemma lstrip_descompone (s : str) :
  exists w, s = w ++ lstrip s /\ forallb es_espacio w = true.
Proof.
  induction s as [|c r (w & E & H)]; [now exists []|]. cbn.
  destruct (es_espacio c) eqn:Ec.
  - exists (c :: w). cbn. rewrite Ec, H. split; [now f_equal|reflexivity].
  - now exists [].
Qed.

Lemma lstrip_cabeza (s : str) (c : N) (r : str) :
  lstrip s = c :: r -> es_espacio c = false.
Proof.
  induction s as [|x s IH]; cbn; [discriminate|].
  destruct (es_espacio x) eqn:Ex; [exact IH|]. now intros [= <- _].
Qed.

Lemma lstrip_fijo (c : N) (r : str) :
  es_espacio c = false -> lstrip (c :: r) = c :: r.
Proof. intros H. cbn. now rewrite H. Qed.

Lemma lstrip_ultimo (l : str) (x : N) :
  es_espacio x = false -> lstrip (l ++ [x]) = lstrip l ++ [x].
Proof.
  intros H. induction l as [|c l IH]; cbn; [now rewrite H|].
  now destruct (es_espacio c).
Qed.

Lemma forallb_rev (f : N -> bool) (l : str) :
  forallb f (rev l) = forallb f l.
Proof.
  destruct (forallb f l) eqn:E.
  - rewrite forallb_forall in *. intros x Hx. apply E. now apply in_rev.
  - destruct (forallb f (rev l)) eqn:E'; trivial.
    rewrite forallb_forall in E'.
    assert (forallb f l = true); [|congruence].
    apply forallb_forall. intros x Hx. apply E'. now apply in_rev in Hx.
Qed.

Lemma strip_descompone (s : str) :
  exists w1 w2, s = w1 ++ strip s ++ w2 /\
                forallb es_espacio w1 = true /\ forallb es_espacio w2 = true.
Proof.
  destruct (lstrip_descompone s) as (w1 & E1 & H1).
  destruct (lstrip_descompone (rev (lstrip s))) as (w2 & E2 & H2).
  exists w1, (rev w2). repeat split; trivial.
  - unfold strip. rewrite <- rev_app_distr, <- E2, rev_involutive. exact E1.
  - now rewrite forallb_rev.
Qed.

Lemma strip_sin_bordes (s : str) : sin_bordes (strip s) = true.
Proof.
  unfold strip. destruct (lstrip s) as [|x a] eqn:Ea; [reflexivity|].
  pose proof (lstrip_cabeza s x a Ea) as Hx.
  cbn [rev]. rewrite (lstrip_ultimo _ x Hx), rev_app_distr. cbn [rev app].
  unfold sin_bordes. rewrite Hx. cbn [negb andb].
  destruct (lstrip (rev a)) as [|y b] eqn:Eb; [cbn; now rewrite Hx|].
  pose proof (lstrip_cabeza _ y b Eb) as Hy.
  cbn [rev]. change (x :: (rev b ++ [y])) with ((x :: rev b) ++ [y]).
  now rewrite last_last, Hy.
Qed.

Lemma strip_fijo (s : str) : sin_bordes s = true -> strip s = s.
Proof.
  destruct s as [|c r]; [reflexivity|]. unfold sin_bordes.
  intros H. apply andb_true_iff in H as [H1 H2].
  apply negb_true_iff in H1, H2.
  unfold strip. rewrite (lstrip_fijo c r H1).
  destruct (exists_last (l := c :: r)) as (l' & x & E); [discriminate|].
  rewrite E in *. rewrite last_last in H2.
  rewrite rev_app_distr. cbn [rev app]. rewrite (lstrip_fijo x _ H2).
  cbn [rev]. now rewrite rev_involutive.
Qed.

Lemma strip_forallb (f : N -> bool) (s : str) :
  forallb f s = true -> forallb f (strip s) = true.
Proof.
  destruct (strip_descompone s) as (w1 & w2 & E & _ & _).
  intros H. rewrite E in H. rewrite !forallb_app in H.
  apply andb_true_iff in H as [_ H]. now apply andb_true_iff in H as [H _].
Qed.

Lemma strip_espacios (s : str) : forallb es_espacio s = true -> strip s = [].
Proof.
  intros H. unfold strip.
  assert (E : lstrip s = []).
  { induction s as [|c r IH]; trivial. cbn in *.
    apply andb_true_iff in H as [H1 H2]. rewrite H1. auto. }
  now rewrite E.
Qed.

End Recorte.

Section Colapso.

Local Open Scope N_scope.

Lemma colapsar_compacto (s : str) : forall d,
  compacto d (colapsar_espacios d s) = true.
Proof.
  induction s as [|c r IH]; intros d; [reflexivity|]. cbn.
  destruct (es_espacio c) eqn:E.
  - destruct d; [apply IH|]. cbn. apply IH.
  - cbn. rewrite E. apply IH.
Qed.

Lemma compacto_fijo (s : str) : forall d,
  compacto d s = true -> colapsar_espacios d s = s.
Proof.
  induction s as [|c r IH]; intros d; [reflexivity|]. cbn.
  destruct (es_espacio c) eqn:E.
  - intros H. apply andb_true_iff in H as [H H3].
    apply andb_true_iff in H as [H1 H2]. apply N.eqb_eq in H1.
    apply negb_true_iff in H2. subst d c. now rewrite (IH true H3).
  - intros H. now rewrite (IH false H).
Qed.

Lemma compacto_relaja (s : str) :
  compacto true s = true -> compacto false s = true.
Proof.
  destruct s as [|c r]; trivial. cbn. destruct (es_espacio c); trivial.
  now rewrite andb_false_r.
Qed.

Lemma compacto_prefijo (a b : str) : forall d,
  compacto d (a ++ b) = true -> compacto d a = true.
Proof.
  induction a as [|c a IH]; intros d; [reflexivity|]. cbn.
  destruct (es_espacio c).
  - intros H. apply andb_true_iff in H as [H H3]. rewrite H. cbn. eauto.
  - eauto.
Qed.

Lemma compacto_sufijo (a b : str) : forall d,
  compacto d (a ++ b) = true -> compacto false b = true.
Proof.
  induction a as [|c a IH]; intros d; cbn.
  - destruct d; [apply compacto_relaja|trivial].
  - destruct (es_espacio c).
    + intros H. apply andb_true_iff in H as [_ H]. eauto.
    + eauto.
Qed.

Lemma strip_compacto (s : str) :
  compacto false s = true -> compacto false (strip s) = true.
Proof.
  destruct (strip_descompone s) as (w1 & w2 & E & _ & _).
  intros H. rewrite E in H. apply compacto_sufijo in H.
  now apply compacto_prefijo in H.
Qed.

Lemma colapsar_ultimo (l : str) (x : N) : forall d,
  es_espacio x = false ->
  colapsar_espacios d (l ++ [x]) = colapsar_espacios d l ++ [x].
Proof.
  induction l as [|c l IH]; intros d H; cbn; [now rewrite H|].
  destruct (es_espacio c); [destruct d|]; cbn; now rewrite IH.
Qed.

Lemma colapsar_sin_bordes (s : str) :
  sin_bordes s = true -> sin_bordes (colapsar_espacios false s) = true.
Proof.
  destruct s as [|c r]; [reflexivity|]. unfold sin_bordes.
  intros H. apply andb_true_iff in H as [H1 H2].
  apply negb_true_iff in H1, H2.
  destruct (exists_last (l := c :: r)) as (l' & x & E); [discriminate|].
  rewrite E in H2. rewrite last_last in H2.
  assert (Hc : colapsar_espacios false (c :: r)
               = c :: colapsar_espacios false r) by (cbn; now rewrite H1).
  rewrite Hc, H1. cbn [negb andb].
  rewrite <- Hc, E, (colapsar_ultimo _ x false H2), last_last.
  now rewrite H2.
Qed.

Lemma colapsar_forallb (f : N -> bool) (s : str) : forall d,
  f 0x20 = true -> forallb f s = true ->
  forallb f (colapsar_espacios d s) = true.
Proof.
  induction s as [|c r IH]; intros d H0 H; [reflexivity|]. cbn in *.
  apply andb_true_iff in H as [H1 H2].
  destruct (es_espacio c); [destruct d|]; cbn [forallb];
    rewrite ?H0, ?H1; cbn [andb]; now apply IH.
Qed.

End Colapso.

Section Normalizacion.

Local Open Scope N_scope.

Lemma previo_base (s : str) :
  filter (fun c => negb (es_Mn c)) (nfd (lower s)) = flat_map base_de s.
Proof.
  unfold nfd, lower. induction s as [|c r IH]; [reflexivity|].
  cbn [map flat_map]. rewrite filter_app. now rewrite IH.
Qed.

Lemma normalizar_pasos (s : str) :
  normalizar_texto s =
  strip (quitar_especiales (colapsar_espacios false (flat_map base_de s))).
Proof.
  rewrite <- previo_base. now destruct s.
Qed.

Lemma base_estable (s : str) : forallb estable (flat_map base_de s) = true.
Proof.
  induction s as [|c r IH]; [reflexivity|].
  cbn [flat_map]. now rewrite forallb_app, base_de_estable, IH.
Qed.

Lemma base_fijo (s : str) :
  forallb estable s = true -> flat_map base_de s = s.
Proof.
  induction s as [|c r IH]; [reflexivity|]. cbn [forallb flat_map].
  intros H. apply andb_true_iff in H as [H1 H2].
  now rewrite (estable_base_de c H1), IH.
Qed.

Lemma quitar_limpio (s : str) : forall d,
  forallb limpio (quitar_especiales (colapsar_espacios d s)) = true.
Proof.
  unfold quitar_especiales.
  induction s as [|c r IH]; intros d; [reflexivity|]. cbn [colapsar_espacios].
  destruct (es_espacio c) eqn:E; [destruct d|]; cbn [map forallb].
  - apply IH.
  - rewrite IH. reflexivity.
  - rewrite E, orb_false_r, IH, andb_true_r.
    destruct (es_palabra c) eqn:P; unfold limpio; [now rewrite P|reflexivity].
Qed.

Lemma quitar_estable (s : str) :
  forallb estable s = true -> forallb estable (quitar_especiales s) = true.
Proof.
  unfold quitar_especiales.
  induction s as [|c r IH]; [reflexivity|]. cbn [map forallb].
  intros H. apply andb_true_iff in H as [H1 H2]. rewrite (IH H2).
  destruct (es_palabra c || es_espacio c); [now rewrite H1|reflexivity].
Qed.

Lemma quitar_fijo (s : str) :
  forallb limpio s = true -> quitar_especiales s = s.
Proof.
  unfold quitar_especiales.
  induction s as [|c r IH]; [reflexivity|]. cbn [map forallb].
  intros H. apply andb_true_iff in H as [H1 H2].
  now rewrite (limpio_visible c H1), IH.
Qed.

Lemma normalizar_normal (s : str) : normal (normalizar_texto s) = true.
Proof.
  rewrite normalizar_pasos. unfold normal.
  rewrite strip_sin_bordes, andb_true_r. apply andb_true_iff. split.
  - apply strip_forallb, quitar_estable, colapsar_forallb;
      [reflexivity|apply base_estable].
  - apply strip_forallb, quitar_limpio.
Qed.

Lemma normal_una_pasada (s : str) :
  normal s = true ->
  normalizar_texto s = colapsar_espacios false s /\
  normal (colapsar_espacios false s) = true.
Proof.
  unfold normal. intros H. apply andb_true_iff in H as [H H3].
  apply andb_true_iff in H as [H1 H2].
  assert (L : forallb limpio (colapsar_espacios false s) = true)
    by (now apply colapsar_forallb).
  assert (B : sin_bordes (colapsar_espacios false s) = true)
    by (now apply colapsar_sin_bordes).
  split.
  - rewrite normalizar_pasos, (base_fijo s H1), (quitar_fijo _ L).
    now apply strip_fijo.
  - rewrite L, B, !andb_true_r. now apply colapsar_forallb.
Qed.

Lemma normal_compacto_fijo (s : str) :
  normal s = true -> compacto false s = true -> normalizar_texto s = s.
Proof.
  intros H C. rewrite (proj1 (normal_una_pasada s H)).
  now apply compacto_fijo.
Qed.

End Normalizacion.

Section PropiedadesNormalizacion.

Local Open Scope N_scope.

Lemma colapsar_visible (s : str) : forall d,
  forallb (fun c => es_palabra c || es_espacio c) s = true ->
  forallb limpio (colapsar_espacios d s) = true.
Proof.
  induction s as [|c r IH]; intros d H; [reflexivity|]. cbn in *.
  apply andb_true_iff in H as [H1 H2].
  destruct (es_espacio c) eqn:E; [destruct d|]; cbn [forallb].
  - now apply IH.
  - now rewrite IH.
  - rewrite orb_false_r in H1. unfold limpio at 1. rewrite H1. now apply IH.
Qed.

Lemma base_visible (s : str) :
  forallb (fun c => es_palabra c || es_espacio c) s = true ->
  forallb (fun c => es_palabra c || es_espacio c) (flat_map base_de s) = true.
Proof.
  induction s as [|c r IH]; [reflexivity|]. cbn [forallb flat_map].
  intros H. apply andb_true_iff in H as [H1 H2].
  rewrite forallb_app, (IH H2), andb_true_r.
  apply orb_true_iff in H1 as [H1|H1].
  - apply forallb_forall. intros y Hy.
    pose proof (base_de_palabra c H1) as G. rewrite forallb_forall in G.
    now rewrite (G y Hy).
  - rewrite (espacio_base_de c H1). cbn. now rewrite H1, orb_true_r.
Qed.

(** X1.  For a text written in Basic Latin, Latin-1, combining diacritical
    marks and white space, the normalised text is written with word
    characters and U+0020 spaces only: it has no capital, no accent mark
    and no other white space, and it begins and ends with a word
    character. *)
Theorem normalizar_forma (s : str) :
  texto_en_dominio s = true ->
  (forall c, In c (normalizar_texto s) ->
     (es_palabra c = true \/ c = 0x20) /\
     minuscula c = c /\ descomponer c = [c] /\ es_Mn c = false) /\
  (forall c r, normalizar_texto s = c :: r -> es_palabra c = true) /\
  (forall c r, normalizar_texto s = r ++ [c] -> es_palabra c = true).
Proof.
  intros _.
  pose proof (normalizar_normal s) as H. unfold normal in H.
  apply andb_true_iff in H as [H H3]. apply andb_true_iff in H as [H1 H2].
  rewrite forallb_forall in H1, H2.
  assert (borde : forall c, In c (normalizar_texto s) ->
                            es_espacio c = false -> es_palabra c = true).
  { intros c Hc E. specialize (H2 c Hc). unfold limpio in H2.
    apply orb_true_iff in H2 as [H2|H2]; trivial.
    apply N.eqb_eq in H2. subst c. discriminate E. }
  repeat split.
  - specialize (H2 c H). unfold limpio in H2.
    apply orb_true_iff in H2 as [H2|H2]; [now left|right; now apply N.eqb_eq].
  - specialize (H1 c H). unfold estable in H1.
    apply andb_true_iff in H1 as [H1 _]. apply andb_true_iff in H1 as [H1 _].
    now apply N.eqb_eq.
  - specialize (H1 c H). unfold estable in H1.
    apply andb_true_iff in H1 as [H1 _]. apply andb_true_iff in H1 as [_ H1].
    now apply str_eqb_eq.
  - specialize (H1 c H). unfold estable in H1.
    apply andb_true_iff in H1 as [_ H1]. now apply negb_true_iff.
  - intros c r E. rewrite E in *. apply borde; [now left|].
    cbn in H3. apply andb_true_iff in H3 as [H3 _]. now apply negb_true_iff.
  - intros c r E. rewrite E in *. apply borde; [apply in_or_app; right; now left|].
    unfold sin_bordes in H3. destruct (r ++ [c]) as [|x t] eqn:Ex.
    + now destruct r.
    + rewrite <- Ex, last_last in H3.
      apply andb_true_iff in H3 as [_ H3]. now apply negb_true_iff.
Qed.

Lemma normalizar_forma_witness :
  let s := valvula_mayuscula ++ u ",  Filtro " in
  texto_en_dominio s = true /\
  (forall c, In c (normalizar_texto s) ->
     (es_palabra c = true \/ c = 0x20) /\
     minuscula c = c /\ descomponer c = [c] /\ es_Mn c = false) /\
  (forall c r, normalizar_texto s = c :: r -> es_palabra c = true) /\
  (forall c r, normalizar_texto s = r ++ [c] -> es_palabra c = true).
Proof.
  cbv zeta. split; [reflexivity|].
  apply (normalizar_forma (valvula_mayuscula ++ u ",  Filtro ")).
  reflexivity.
Defined.

Lemma normalizar_lower (s : str) :
  normalizar_texto (lower s) = normalizar_texto s.
Proof.
  rewrite !normalizar_pasos. do 3 f_equal. unfold lower.
  induction s as [|c r IH]; [reflexivity|]. cbn [map flat_map].
  now rewrite base_de_minuscula, IH.
Qed.

Lemma normalizar_base (s : str) :
  normalizar_texto (sin_acentos s) = normalizar_texto s.
Proof.
  rewrite !normalizar_pasos. do 3 f_equal. unfold sin_acentos.
  induction s as [|c r IH]; [reflexivity|]. cbn [map flat_map].
  now rewrite base_de_sin_acento, IH.
Qed.

(** X2.  On texts written in Basic Latin, Latin-1, combining diacritical
    marks and white space, normalisation does not see the case: a text and
    its lower-case form have the same normalised form, and so have two
    texts that differ in case only. *)
Theorem normalizar_sin_mayusculas (s t : str) :
  texto_en_dominio s = true -> texto_en_dominio t = true ->
  normalizar_texto (lower s) = normalizar_texto s /\
  (lower s = lower t -> normalizar_texto s = normalizar_texto t).
Proof.
  intros _ _. split; [apply normalizar_lower|].
  intros E. rewrite <- (normalizar_lower s), E. apply normalizar_lower.
Qed.

Lemma normalizar_sin_mayusculas_witness :
  (texto_en_dominio valvula_mayuscula = true /\
   texto_en_dominio valvula_acentuada = true /\
   lower valvula_mayuscula = lower valvula_acentuada) /\
  normalizar_texto (lower valvula_mayuscula)
  = normalizar_texto valvula_mayuscula /\
  normalizar_texto valvula_mayuscula = normalizar_texto valvula_acentuada.
Proof.
  split; [repeat split|].
  destruct (normalizar_sin_mayusculas valvula_mayuscula valvula_acentuada
              eq_refl eq_refl) as [E1 E2].
  split; [exact E1|exact (E2 eq_refl)].
Defined.

(** X3.  On texts written in Basic Latin, Latin-1, combining diacritical
    marks and white space, normalisation does not see accents: replacing
    every precomposed letter by its base letter leaves the normalised text
    unchanged, so a word written with and without accents normalises to
    the same text. *)
Theorem normalizar_sin_acentos (s t : str) :
  texto_en_dominio s = true -> texto_en_dominio t = true ->
  normalizar_texto (sin_acentos s) = normalizar_texto s /\
  (sin_acentos s = sin_acentos t -> normalizar_texto s = normalizar_texto t).
Proof.
  intros _ _. split; [apply normalizar_base|].
  intros E. rewrite <- (normalizar_base s), E. apply normalizar_base.
Qed.

Lemma normalizar_sin_acentos_witness :
  (texto_en_dominio valvula_acentuada = true /\
   texto_en_dominio (u "valvula") = true /\
   sin_acentos valvula_acentuada = sin_acentos (u "valvula")) /\
  normalizar_texto (sin_acentos valvula_acentuada)
  = normalizar_texto valvula_acentuada /\
  normalizar_texto valvula_acentuada = normalizar_texto (u "valvula").
Proof.
  split; [repeat split|].
  destruct (normalizar_sin_acentos valvula_acentuada (u "valvula")
              eq_refl eq_refl) as [E1 E2].
  split; [exact E1|exact (E2 eq_refl)].
Defined.

(** X4.  On a text made only of white space and of the word characters of
    Basic Latin and Latin-1, normalising twice is normalising once. *)
Theorem normalizar_idempotente_sin_signos (s : str) :
  texto_en_dominio s = true ->
  forallb (fun c => es_palabra c || es_espacio c) s = true ->
  normalizar_texto (normalizar_texto s) = normalizar_texto s.
Proof.
  intros _ H. apply normal_compacto_fijo; [apply normalizar_normal|].
  rewrite normalizar_pasos.
  rewrite quitar_fijo by (apply colapsar_visible, base_visible, H).
  apply strip_compacto, colapsar_compacto.
Qed.

Lemma normalizar_idempotente_witness :
  let s := u "  Cambio   de " ++ valvula_mayuscula ++ [0xA0] in
  (texto_en_dominio s = true /\
   forallb (fun c => es_palabra c || es_espacio c) s = true) /\
  normalizar_texto (normalizar_texto s) = normalizar_texto s.
Proof.
  cbv zeta. split; [split; reflexivity|].
  apply (normalizar_idempotente_sin_signos
           (u "  Cambio   de " ++ valvula_mayuscula ++ [0xA0]));
    reflexivity.
Defined.

(** X5.  For a text written in Basic Latin, Latin-1, combining diacritical
    marks and white space, the second normalisation only collapses the
    runs of spaces the first one left, and its result is a fixed point: a
    third normalisation changes nothing. *)
Theorem normalizar_estable_en_dos_pasadas (s : str) :
  texto_en_dominio s = true ->
  normalizar_texto (normalizar_texto s)
  = colapsar_espacios false (normalizar_texto s) /\
  normalizar_texto (normalizar_texto (normalizar_texto s))
  = normalizar_texto (normalizar_texto s).
Proof.
  intros _.
  destruct (normal_una_pasada _ (normalizar_normal s)) as [E N].
  split; [exact E|]. rewrite E.
  apply normal_compacto_fijo; [exact N|apply colapsar_compacto].
Qed.

Lemma normalizar_estable_witness :
  let s := valvula_mayuscula ++ u ", Filtro" in
  texto_en_dominio s = true /\
  normalizar_texto s = u "valvula  filtro" /\
  normalizar_texto (normalizar_texto s)
  = colapsar_espacios false (normalizar_texto s) /\
  normalizar_texto (normalizar_texto (normalizar_texto s))
  = normalizar_texto (normalizar_texto s).
Proof.
  cbv zeta. split; [reflexivity|]. split; [reflexivity|].
  apply (normalizar_estable_en_dos_pasadas
           (valvula_mayuscula ++ u ", Filtro")).
  reflexivity.
Defined.

End PropiedadesNormalizacion.

(* ================================================================== *)
(** * Further properties: the keyword dictionary *)
(* ================================================================== *)

Section Agrupacion.

Implicit Types (clave k : str) (d : Dato) (pc : Palabras).

Lemma obtener_agregar clave d pc k :
  obtener k (agregar clave d pc) =
  if str_eqb clave k then obtener k pc ++ [d] else obtener k pc.
Proof.
  induction pc as [|[k0 ds] r IH]; cbn.
  - now destruct (str_eqb clave k).
  - destruct (str_eqb k0 clave) eqn:E; cbn.
    + apply str_eqb_eq in E. subst k0. now destruct (str_eqb clave k).
    + destruct (str_eqb k0 k) eqn:E2; [|exact IH].
      apply str_eqb_eq in E2. subst k0. apply str_eqb_neq in E.
      assert (E' : str_eqb clave k = false) by (apply str_eqb_neq; congruence).
      now rewrite E'.
Qed.

Lemma agregar_claves_in clave d pc :
  In clave (map fst pc) -> map fst (agregar clave d pc) = map fst pc.
Proof.
  induction pc as [|[k0 ds] r IH]; cbn; [tauto|].
  destruct (str_eqb k0 clave) eqn:E; [reflexivity|].
  apply str_eqb_neq in E. intros [H|H]; [congruence|]. cbn. now rewrite IH.
Qed.

Lemma agregar_claves_notin clave d pc :
  ~ In clave (map fst pc) ->
  map fst (agregar clave d pc) = map fst pc ++ [clave].
Proof.
  induction pc as [|[k0 ds] r IH]; cbn; [reflexivity|].
  destruct (str_eqb k0 clave) eqn:E.
  - apply str_eqb_eq in E. tauto.
  - intros H. cbn. rewrite IH; tauto.
Qed.

Lemma agregar_NoDup clave d pc :
  NoDup (map fst pc) -> NoDup (map fst (agregar clave d pc)).
Proof.
  intros H. destruct (In_dec_str clave (map fst pc)) as [Hin|Hin].
  - now rewrite agregar_claves_in.
  - rewrite agregar_claves_notin by trivial.
    apply NoDup_app; [trivial|constructor; [tauto|constructor]|].
    cbn. intros x Hx [<-|[]]. tauto.
Qed.

Lemma agregar_no_vacias clave d pc :
  (forall k ds, In (k, ds) pc -> ds <> []) ->
  forall k ds, In (k, ds) (agregar clave d pc) -> ds <> [].
Proof.
  induction pc as [|[k0 ds0] r IH]; cbn; intros H k ds.
  - intros [[= <- <-]|[]]. discriminate.
  - destruct (str_eqb k0 clave).
    + intros [[= <- <-]|Hin].
      * destruct ds0; discriminate.
      * apply (H k ds). now right.
    + intros [[= <- <-]|Hin].
      * apply (H k0 ds0). now left.
      * apply (IH (fun k' ds' H' => H k' ds' (or_intror H')) k ds Hin).
Qed.

Lemma agregar_perm clave d pc :
  Permutation (flat_map snd (agregar clave d pc)) (d :: flat_map snd pc).
Proof.
  induction pc as [|[k0 ds] r IH]; cbn; [reflexivity|].
  destruct (str_eqb k0 clave); cbn.
  - rewrite <- app_assoc. cbn.
    apply Permutation_sym, Permutation_middle.
  - rewrite IH. apply Permutation_sym, Permutation_middle.
Qed.

Lemma In_obtener pc k ds :
  NoDup (map fst pc) -> In (k, ds) pc -> obtener k pc = ds.
Proof.
  induction pc as [|[k0 ds0] r IH]; cbn; [tauto|].
  intros H. inversion H as [|? ? Hn Hr]; subst. intros [[= -> ->]|Hin].
  - now rewrite str_eqb_refl.
  - destruct (str_eqb k0 k) eqn:E; [|now apply IH].
    apply str_eqb_eq in E. subst k0. exfalso. apply Hn.
    change k with (fst (k, ds)). now apply in_map.
Qed.

Lemma obtener_In pc k :
  obtener k pc <> [] -> In (k, obtener k pc) pc.
Proof.
  induction pc as [|[k0 ds0] r IH]; cbn; [congruence|].
  destruct (str_eqb k0 k) eqn:E.
  - apply str_eqb_eq in E. subst k0. now left.
  - intros H. right. now apply IH.
Qed.

Lemma agrupar_obtener filas : forall pc k,
  obtener k (agrupar filas pc) = obtener k pc ++ filas_de k filas.
Proof.
  unfold agrupar, filas_de.
  induction filas as [|d l IH]; intros pc k; cbn.
  - now rewrite app_nil_r.
  - rewrite IH, obtener_agregar.
    destruct (str_eqb (normalizar_texto (palabra_original d)) k);
      [now rewrite <- app_assoc|reflexivity].
Qed.

Lemma agrupar_NoDup filas : forall pc,
  NoDup (map fst pc) -> NoDup (map fst (agrupar filas pc)).
Proof.
  unfold agrupar. induction filas as [|d l IH]; intros pc H; cbn; trivial.
  apply IH. now apply agregar_NoDup.
Qed.

Lemma agrupar_no_vacias filas : forall pc,
  (forall k ds, In (k, ds) pc -> ds <> []) ->
  forall k ds, In (k, ds) (agrupar filas pc) -> ds <> [].
Proof.
  unfold agrupar. induction filas as [|d l IH]; intros pc H; cbn; trivial.
  apply IH. now apply agregar_no_vacias.
Qed.

Lemma agrupar_perm filas : forall pc,
  Permutation (flat_map snd (agrupar filas pc)) (flat_map snd pc ++ filas).
Proof.
  unfold agrupar. induction filas as [|d l IH]; intros pc; cbn.
  - now rewrite app_nil_r.
  - rewrite IH, agregar_perm. cbn. apply Permutation_middle.
Qed.

End Agrupacion.

(** X6.  The dictionary built by the loaders has one entry per normalised
    keyword: the keys are pairwise distinct, and a key holds a list
    exactly when that list is not empty and is the list of the rows whose
    keyword normalises to the key, in the order of the query. *)
Theorem cargar_agrupa_por_clave (filas : list Dato) :
  NoDup (map fst (cargar_palabras_clave filas)) /\
  forall k datos,
    In (k, datos) (cargar_palabras_clave filas) <->
    datos <> [] /\ datos = filas_de k filas.
Proof.
  pose proof (agrupar_NoDup filas [] (NoDup_nil _)) as ND.
  change (agrupar filas []) with (cargar_palabras_clave filas) in ND.
  split; [exact ND|]. intros k datos.
  pose proof (agrupar_obtener filas [] k) as G.
  change (agrupar filas []) with (cargar_palabras_clave filas) in G.
  cbn in G. split.
  - intros H. split.
    + apply (agrupar_no_vacias filas [] (fun _ _ F => match F with end) k datos H).
    + rewrite <- G. symmetry. now apply In_obtener.
  - intros [Hne ->]. rewrite <- G in *. now apply obtener_In.
Qed.

(** X7.  The loaders neither drop nor repeat a row: the lists of the
    dictionary, put end to end, are a rearrangement of the rows of the
    query. *)
Theorem cargar_conserva_filas (filas : list Dato) :
  Permutation (flat_map snd (cargar_palabras_clave filas)) filas.
Proof.
  apply (agrupar_perm filas []).
Qed.

(* ================================================================== *)
(** * Further properties: detection *)
(* ================================================================== *)

Section Cotas.

Lemma py_min_cota (a : float) :
  es_nan (py_min a f1_0) = false -> fleb (py_min a f1_0) f1_0 = true.
Proof.
  unfold py_min. destruct (fltb f1_0 a) eqn:E; intros H.
  - reflexivity.
  - now apply fltb_false_fleb.
Qed.

Lemma confianza_repuesto_cota (b : bool) (d : Dato) :
  es_nan (confianza_repuesto b d) = false ->
  fleb (confianza_repuesto b d) f1_0 = true.
Proof. rewrite confianza_repuesto_pasos. apply py_min_cota. Qed.

Lemma confianza_trabajo_cota (b : bool) (d : Dato) :
  es_nan (confianza_trabajo b d) = false ->
  fleb (confianza_trabajo b d) f1_0 = true.
Proof. rewrite confianza_trabajo_pasos. apply py_min_cota. Qed.

Variable calcular : bool -> Dato -> float.

Hypothesis calcular_cota : forall b d,
  es_nan (calcular b d) = false -> fleb (calcular b d) f1_0 = true.

Lemma detectar_cotas (texto : str) (pc : Palabras) (umbral : float)
    (m : ClasificacionResultado) :
  In m (clasificaciones (detectar calcular texto pc umbral)) ->
  fleb umbral (confianza m) = true /\ fleb (confianza m) f1_0 = true.
Proof.
  rewrite detectar_clasificaciones. intros H.
  apply finales_candidato, in_candidatos in H
    as (k & datos & d & _ & _ & _ & F & ->).
  cbn. split; [exact F|]. apply calcular_cota. now apply fleb_no_nan in F.
Qed.

Lemma detectar_umbral_alto (texto : str) (pc : Palabras) (umbral : float) :
  fltb f1_0 umbral = true ->
  clasificaciones (detectar calcular texto pc umbral) = [].
Proof.
  intros H. destruct (clasificaciones _) as [|m r] eqn:E; trivial.
  destruct (detectar_cotas texto pc umbral m) as [H1 H2].
  { rewrite E. now left. }
  pose proof (fleb_fltb_false _ _ (fleb_trans _ _ _ H1 H2)). congruence.
Qed.

End Cotas.

(** X8.  A returned confidence lies between the threshold and 1.0, for both
    detectors; with a threshold above 1.0 nothing is returned. *)
Theorem confianza_entre_umbral_y_uno
    (texto : str) (pc : Palabras) (umbral : float) :
  (forall m,
      In m (clasificaciones (detectar_repuestos texto pc umbral)) \/
      In m (clasificaciones (detectar_trabajos texto pc umbral)) ->
      fleb umbral (confianza m) = true /\ fleb (confianza m) f1_0 = true) /\
  (fltb f1_0 umbral = true ->
   clasificaciones (detectar_repuestos texto pc umbral) = [] /\
   clasificaciones (detectar_trabajos texto pc umbral) = []).
Proof.
  split.
  - intros m [H|H].
    + apply (detectar_cotas confianza_repuesto confianza_repuesto_cota _ _ _ _ H).
    + apply (detectar_cotas confianza_trabajo confianza_trabajo_cota _ _ _ _ H).
  - intros H. split.
    + apply (detectar_umbral_alto confianza_repuesto confianza_repuesto_cota _ _ _ H).
    + apply (detectar_umbral_alto confianza_trabajo confianza_trabajo_cota _ _ _ H).
Qed.

Section Cobertura.

Variable calcular : bool -> Dato -> float.

Lemma detectar_cubre (texto : str) (pc : Palabras) (umbral : float)
    (k : str) (datos : list Dato) (d : Dato) :
  In (k, datos) pc -> In d datos ->
  contiene k (normalizar_texto texto) = true ->
  fleb umbral (calcular (palabra_completa k (normalizar_texto texto)) d)
    = true ->
  exists m,
    In m (clasificaciones (detectar calcular texto pc umbral)) /\
    categoria m = categoria_nombre d /\
    fleb (calcular (palabra_completa k (normalizar_texto texto)) d)
         (confianza m) = true.
Proof.
  intros H1 H2 H3 H4. rewrite detectar_clasificaciones.
  set (c := resultado_de d
              (calcular (palabra_completa k (normalizar_texto texto)) d)).
  assert (Hc : In c (candidatos calcular (normalizar_texto texto) umbral pc)).
  { apply in_candidatos. exists k, datos, d. auto. }
  destruct (unicas_registra _ c (candidatos_sin_nan _ _ _ _) Hc)
    as (v & Hv & L).
  pose proof (proj2 (unicas_origen _ _ _ Hv)) as Ek. rewrite Ek in Hv.
  exists v. repeat split; trivial.
  - now apply finales_In.
  - now rewrite <- Ek.
Qed.

Lemma detectar_mejor_domina (texto : str) (pc : Palabras) (umbral : float)
    (m c : ClasificacionResultado) :
  mejor_clasificacion (detectar calcular texto pc umbral) = Some m ->
  In c (candidatos calcular (normalizar_texto texto) umbral pc) ->
  fleb (confianza c) (confianza m) = true.
Proof.
  intros Hm Hc.
  pose proof (finales_sorted _ (candidatos_sin_nan calcular
                (normalizar_texto texto) umbral pc)) as Hs.
  destruct (unicas_registra _ c (candidatos_sin_nan _ _ _ _) Hc)
    as (v & Hv & L).
  rewrite (proj2 (unicas_origen _ _ _ Hv)) in Hv. apply finales_In in Hv.
  change (mejor_clasificacion (detectar calcular texto pc umbral))
    with (hd_error (finales (candidatos calcular (normalizar_texto texto)
                               umbral pc))) in Hm.
  destruct (finales _) as [|x r]; [discriminate|].
  injection Hm as ->. destruct Hv as [->|Hv]; trivial.
  inversion Hs as [|? ? _ Hall]; subst.
  rewrite Forall_forall in Hall. eapply fleb_trans; [exact L|].
  now apply Hall.
Qed.

Lemma detectar_sin_mejor (texto : str) (pc : Palabras) (umbral : float) :
  mejor_clasificacion (detectar calcular texto pc umbral) = None <->
  candidatos calcular (normalizar_texto texto) umbral pc = [].
Proof.
  change (mejor_clasificacion (detectar calcular texto pc umbral))
    with (hd_error (finales (candidatos calcular (normalizar_texto texto)
                               umbral pc))).
  split.
  - intros H.
    destruct (candidatos calcular (normalizar_texto texto) umbral pc)
      as [|c l] eqn:E; trivial.
    destruct (unicas_registra (c :: l) c) as (v & Hv & _).
    { rewrite <- E. apply candidatos_sin_nan. }
    { now left. }
    rewrite (proj2 (unicas_origen _ _ _ Hv)) in Hv. apply finales_In in Hv.
    destruct (finales (c :: l)); [destruct Hv|discriminate].
  - intros ->. reflexivity.
Qed.

Lemma detectar_por_normalizado (t1 t2 : str) (pc : Palabras) (umbral : float) :
  normalizar_texto t1 = normalizar_texto t2 ->
  texto_normalizado (detectar calcular t1 pc umbral)
    = texto_normalizado (detectar calcular t2 pc umbral) /\
  clasificaciones (detectar calcular t1 pc umbral)
    = clasificaciones (detectar calcular t2 pc umbral) /\
  mejor_clasificacion (detectar calcular t1 pc umbral)
    = mejor_clasificacion (detectar calcular t2 pc umbral) /\
  confianza_total (detectar calcular t1 pc umbral)
    = confianza_total (detectar calcular t2 pc umbral).
Proof.
  intros E. unfold detectar. cbn. now rewrite E.
Qed.

End Cobertura.

(** X9.  No category is lost: a taxonomy row whose keyword occurs in the
    normalised text and whose confidence reaches the threshold has its
    category in the result, with a confidence at least as great. *)
Theorem ninguna_categoria_se_pierde
    (texto : str) (pc : Palabras) (umbral : float)
    (k : str) (datos : list Dato) (d : Dato) :
  In (k, datos) pc -> In d datos ->
  contiene k (normalizar_texto texto) = true ->
  let completa := palabra_completa k (normalizar_texto texto) in
  (fleb umbral (confianza_repuesto completa d) = true ->
   exists m,
     In m (clasificaciones (detectar_repuestos texto pc umbral)) /\
     categoria m = categoria_nombre d /\
     fleb (confianza_repuesto completa d) (confianza m) = true) /\
  (fleb umbral (confianza_trabajo completa d) = true ->
   exists m,
     In m (clasificaciones (detectar_trabajos texto pc umbral)) /\
     categoria m = categoria_nombre d /\
     fleb (confianza_trabajo completa d) (confianza m) = true).
Proof.
  intros H1 H2 H3 completa. split; intros H4.
  - now apply (detectar_cubre confianza_repuesto texto pc umbral k datos d).
  - now apply (detectar_cubre confianza_trabajo texto pc umbral k datos d).
Qed.

Lemma ninguna_categoria_se_pierde_witness :
  (In (u "aceite", [Ejemplos.aceite]) Ejemplos.palabras_filtros /\
   In Ejemplos.aceite [Ejemplos.aceite] /\
   contiene (u "aceite") (normalizar_texto (u "Filtro de ACEITE")) = true /\
   fleb f0_3 (confianza_repuesto
                (palabra_completa (u "aceite")
                   (normalizar_texto (u "Filtro de ACEITE")))
                Ejemplos.aceite) = true) /\
  exists m,
    In m (clasificaciones
            (detectar_repuestos (u "Filtro de ACEITE")
               Ejemplos.palabras_filtros f0_3)) /\
    categoria m = categoria_nombre Ejemplos.aceite /\
    fleb (confianza_repuesto
            (palabra_completa (u "aceite")
               (normalizar_texto (u "Filtro de ACEITE")))
            Ejemplos.aceite)
         (confianza m) = true.
Proof.
  assert (H1 : In (u "aceite", [Ejemplos.aceite]) Ejemplos.palabras_filtros)
    by (vm_compute; right; now left).
  assert (H2 : In Ejemplos.aceite [Ejemplos.aceite]) by now left.
  assert (H3 : contiene (u "aceite")
                 (normalizar_texto (u "Filtro de ACEITE")) = true)
    by reflexivity.
  assert (H4 : fleb f0_3 (confianza_repuesto
                (palabra_completa (u "aceite")
                   (normalizar_texto (u "Filtro de ACEITE")))
                Ejemplos.aceite) = true) by reflexivity.
  split; [now repeat split|].
  exact (proj1 (ninguna_categoria_se_pierde (u "Filtro de ACEITE")
                  Ejemplos.palabras_filtros f0_3 (u "aceite")
                  [Ejemplos.aceite] Ejemplos.aceite H1 H2 H3) H4).
Defined.

(** X10.  The best match has the greatest confidence of all the candidates that
    reached the threshold, whatever their category; there is no best
    match exactly when no candidate reached it. *)
Theorem mejor_clasificacion_domina
    (texto : str) (pc : Palabras) (umbral : float) :
  let tn := normalizar_texto texto in
  (forall m c,
      mejor_clasificacion (detectar_repuestos texto pc umbral) = Some m ->
      In c (candidatos confianza_repuesto tn umbral pc) ->
      fleb (confianza c) (confianza m) = true) /\
  (mejor_clasificacion (detectar_repuestos texto pc umbral) = None <->
   candidatos confianza_repuesto tn umbral pc = []) /\
  (forall m c,
      mejor_clasificacion (detectar_trabajos texto pc umbral) = Some m ->
      In c (candidatos confianza_trabajo tn umbral pc) ->
      fleb (confianza c) (confianza m) = true) /\
  (mejor_clasificacion (detectar_trabajos texto pc umbral) = None <->
   candidatos confianza_trabajo tn umbral pc = []).
Proof.
  cbv zeta. repeat split.
  - intros m c. apply detectar_mejor_domina.
  - apply (proj1 (detectar_sin_mejor confianza_repuesto texto pc umbral)).
  - apply (proj2 (detectar_sin_mejor confianza_repuesto texto pc umbral)).
  - intros m c. apply detectar_mejor_domina.
  - apply (proj1 (detectar_sin_mejor confianza_trabajo texto pc umbral)).
  - apply (proj2 (detectar_sin_mejor confianza_trabajo texto pc umbral)).
Qed.

(** X11.  For a text written in Basic Latin, Latin-1, combining diacritical
    marks and white space, both detectors give the same normalised text,
    matches, best match and overall confidence for the text, for its
    lower-case form and for its form without accents. *)
Theorem deteccion_sin_mayusculas_ni_acentos
    (texto : str) (pc : Palabras) (umbral : float) :
  texto_en_dominio texto = true ->
  misma_deteccion (detectar_repuestos (lower texto) pc umbral)
                  (detectar_repuestos texto pc umbral) /\
  misma_deteccion (detectar_repuestos (sin_acentos texto) pc umbral)
                  (detectar_repuestos texto pc umbral) /\
  misma_deteccion (detectar_trabajos (lower texto) pc umbral)
                  (detectar_trabajos texto pc umbral) /\
  misma_deteccion (detectar_trabajos (sin_acentos texto) pc umbral)
                  (detectar_trabajos texto pc umbral).
Proof.
  intros _.
  repeat apply conj; apply detectar_por_normalizado;
    (apply normalizar_lower || apply normalizar_base).
Qed.

Lemma deteccion_sin_mayusculas_witness :
  let texto := u "Cambio de FILTRO en " ++ valvula_mayuscula in
  let pc := Ejemplos.palabras_filtros in
  texto_en_dominio texto = true /\
  map categoria (clasificaciones (detectar_repuestos texto pc f0_3))
  = [u "Filtros"] /\
  misma_deteccion (detectar_repuestos (lower texto) pc f0_3)
                  (detectar_repuestos texto pc f0_3) /\
  misma_deteccion (detectar_repuestos (sin_acentos texto) pc f0_3)
                  (detectar_repuestos texto pc f0_3) /\
  misma_deteccion (detectar_trabajos (lower texto) pc f0_3)
                  (detectar_trabajos texto pc f0_3) /\
  misma_deteccion (detectar_trabajos (sin_acentos texto) pc f0_3)
                  (detectar_trabajos texto pc f0_3).
Proof.
  cbv zeta. split; [reflexivity|]. split; [reflexivity|].
  apply (deteccion_sin_mayusculas_ni_acentos
           (u "Cambio de FILTRO en " ++ valvula_mayuscula)
           Ejemplos.palabras_filtros f0_3).
  reflexivity.
Defined.

(* ================================================================== *)
(** * Further properties: the analysis and its report *)
(* ================================================================== *)

Section Informes.

Lemma analizar_informe (pr pt : Palabras) (d : str) (id : option Z)
    (db db' : Almacen) (informe : Informe) :
  d <> [] ->
  Motor.analizar_mantenimiento_completo pr pt (Some d) id db
  = Ok (informe, db') ->
  informe = informe_de (detectar_repuestos (fst (separar d)) pr f0_3)
                       (detectar_trabajos (snd (separar d)) pt f0_3).
Proof.
  intros Hd. destruct (id_verdadero id) as [z|] eqn:E.
  - assert (Hz : z <> 0%Z /\ id = Some z).
    { destruct id as [y|]; [|discriminate]. cbn in E.
      destruct (Z.eqb_spec y 0); [discriminate|]. injection E as <-. auto. }
    destruct Hz as [Hz ->]. rewrite analizar_con_id by trivial.
    destruct (guardar_si_mejor z _ (u "repuesto") db) as [db1|e]; cbn [bind];
      [|discriminate].
    destruct (guardar_si_mejor z _ (u "trabajo") db1) as [db2|e]; cbn [bind];
      [|discriminate].
    now intros [= <- _].
  - rewrite (analizar_id_falso pr pt (Some d) id db E).
    rewrite analizar_sin_id by trivial. now intros [= <- _].
Qed.

Lemma In_firstn (A : Type) (n : nat) (l : list A) (x : A) :
  In x (firstn n l) -> In x l.
Proof.
  intros H. rewrite <- (firstn_skipn n l). apply in_or_app. now left.
Qed.

Lemma NoDup_firstn (A : Type) (n : nat) (l : list A) :
  NoDup l -> NoDup (firstn n l).
Proof.
  intros H. rewrite <- (firstn_skipn n l) in H.
  now apply NoDup_app_remove_r in H.
Qed.

Lemma items_categorias (l : list ClasificacionResultado) :
  map item_categoria (map item_de l) = map categoria l.
Proof. rewrite map_map. reflexivity. Qed.

Lemma items_forma (calcular : bool -> Dato -> float)
    (texto : str) (pc : Palabras) (umbral : float) :
  let det := detectar calcular texto pc umbral in
  let items := map item_de (firstn 5 (clasificaciones det)) in
  (List.length items <= 5)%nat /\
  (List.length items <= List.length (clasificaciones det))%nat /\
  NoDup (map item_categoria items) /\
  option_map categoria (mejor_clasificacion det)
    = hd_error (map item_categoria items) /\
  (forall it, In it items -> exists palabra, item_palabras it = [palabra]).
Proof.
  cbv zeta. rewrite length_map, items_categorias. repeat split.
  - apply firstn_le_length.
  - rewrite length_firstn. lia.
  - rewrite <- firstn_map. apply NoDup_firstn.
    rewrite detectar_clasificaciones. apply finales_NoDup.
  - change (mejor_clasificacion (detectar calcular texto pc umbral))
      with (hd_error (clasificaciones (detectar calcular texto pc umbral))).
    now destruct (clasificaciones (detectar calcular texto pc umbral)).
  - intros it H. apply in_map_iff in H as (m & <- & Hm).
    apply In_firstn in Hm.
    apply detectar_unico_ganador in Hm as ((k & datos & d & H) & _).
    exists (palabra_original d). cbn. tauto.
Qed.


End Informes.

(** X12.  The report of a non-empty description lists at most five matches per
    pass and never the same category twice; the best category it names is
    the category of the first match listed (none when the list is empty);
    every listed match carries one keyword; the summary counts all the
    categories detected, listed or not. *)
Theorem informe_cinco_mejores
    (pr pt : Palabras) (d : str) (id : option Z) (db db' : Almacen)
    (informe : Informe) :
  d <> [] ->
  Motor.analizar_mantenimiento_completo pr pt (Some d) id db
  = Ok (informe, db') ->
  let dr := detectar_repuestos (fst (separar d)) pr f0_3 in
  let dt := detectar_trabajos (snd (separar d)) pt f0_3 in
  ((List.length (repuestos informe) <= 5)%nat /\
   (List.length (trabajos informe) <= 5)%nat) /\
  (NoDup (map item_categoria (repuestos informe)) /\
   NoDup (map item_categoria (trabajos informe))) /\
  (mejor_repuesto informe
     = Presente (hd_error (map item_categoria (repuestos informe))) /\
   mejor_trabajo informe
     = Presente (hd_error (map item_categoria (trabajos informe)))) /\
  (forall it, In it (repuestos informe) \/ In it (trabajos informe) ->
              exists palabra, item_palabras it = [palabra]) /\
  resumen informe =
    u "Detectados " ++ str_of_nat (List.length (clasificaciones dr))
    ++ u " tipos de repuestos y "
    ++ str_of_nat (List.length (clasificaciones dt))
    ++ u " tipos de trabajos" /\
  (List.length (repuestos informe) <= List.length (clasificaciones dr))%nat /\
  (List.length (trabajos informe) <= List.length (clasificaciones dt))%nat.
Proof.
  intros Hd H dr dt. apply analizar_informe in H; trivial. subst informe.
  fold dr dt.
  destruct (items_forma confianza_repuesto (fst (separar d)) pr f0_3)
    as (R1 & R2 & R3 & R4 & R5).
  destruct (items_forma confianza_trabajo (snd (separar d)) pt f0_3)
    as (T1 & T2 & T3 & T4 & T5).
  cbn [informe_de repuestos trabajos mejor_repuesto mejor_trabajo resumen].
  repeat split; trivial.
  - f_equal. exact R4.
  - f_equal. exact T4.
  - intros it [Hit|Hit]; auto.
Qed.

Lemma informe_cinco_mejores_witness :
  (u "filtro de aceite | service" <> [] /\
   exists informe db',
     Motor.analizar_mantenimiento_completo Ejemplos.palabras_filtros
       Ejemplos.palabras_service (Some (u "filtro de aceite | service"))
       (Some 7%Z) Ejemplos.db_abierta
     = Ok (informe, db') /\
     map item_categoria (repuestos informe) = [u "Filtros"] /\
     NoDup (map item_categoria (repuestos informe))).
Proof.
  assert (Hd : u "filtro de aceite | service" <> []) by discriminate.
  split; [exact Hd|]. eexists. eexists.
  split; [vm_compute; reflexivity|]. split; [reflexivity|].
  refine (proj1 (proj1 (proj2 (informe_cinco_mejores
            Ejemplos.palabras_filtros Ejemplos.palabras_service
            (u "filtro de aceite | service") (Some 7%Z) Ejemplos.db_abierta
            _ _ Hd _)))).
  vm_compute. reflexivity.
Defined.


Section EnBlanco.

Lemma split_sin_separador_uno (sep : N) (s : str) :
  ~ In sep s -> split sep s = [s].
Proof.
  induction s as [|c r IH]; [reflexivity|]. cbn [split In]. intros H.
  destruct (N.eqb_spec c sep) as [->|_]; [tauto|].
  rewrite IH by tauto. reflexivity.
Qed.

Lemma espacios_sin_barra (d : str) :
  forallb es_espacio d = true -> ~ In barra d.
Proof.
  intros H Hin. rewrite forallb_forall in H. now specialize (H _ Hin).
Qed.

Lemma separar_en_blanco (d : str) :
  forallb es_espacio d = true -> separar d = (espacio, espacio).
Proof.
  intros H. unfold separar.
  rewrite (split_sin_separador_uno barra d (espacios_sin_barra d H)).
  cbn [fold_left]. unfold acumular. now rewrite (strip_espacios d H).
Qed.

End EnBlanco.

(** X13.  A description made of white space only is not taken for a missing
    one: when no keyword normalises to the empty string, the analysis
    returns the computed report (no match, both best categories present
    and null, the summary with two zero counts), which is not the report
    of the empty description, and it writes nothing to the audit table. *)
Theorem descripcion_en_blanco
    (pr pt : Palabras) (d : str) (id : option Z) (db : Almacen) :
  d <> [] -> forallb es_espacio d = true ->
  (forall k datos, In (k, datos) pr \/ In (k, datos) pt -> k <> []) ->
  Motor.analizar_mantenimiento_completo pr pt (Some d) id db
  = Ok ({| repuestos := [];
           trabajos := [];
           confianza_repuestos := f0_0;
           confianza_trabajos := f0_0;
           mejor_repuesto := Presente None;
           mejor_trabajo := Presente None;
           resumen :=
             u "Detectados 0 tipos de repuestos y 0 tipos de trabajos" |},
        db) /\
  Motor.analizar_mantenimiento_completo pr pt (Some d) id db
  <> Motor.analizar_mantenimiento_completo pr pt (Some []) id db.
Proof.
  intros Hd He Hk.
  assert (E : Motor.analizar_mantenimiento_completo pr pt (Some d) id db
              = Ok (informe_de (deteccion_vacia espacio)
                               (deteccion_vacia espacio), db)).
  { unfold Motor.analizar_mantenimiento_completo.
    destruct d as [|c r]; [congruence|].
    rewrite (separar_en_blanco (c :: r) He).
    unfold detectar_repuestos, detectar_trabajos.
    rewrite !detectar_espacios; try reflexivity.
    - now destruct (id_verdadero id).
    - intros k datos H. apply (Hk k datos). now right.
    - intros k datos H. apply (Hk k datos). now left. }
  split; [exact E|]. rewrite E. cbn. discriminate.
Qed.

Lemma descripcion_en_blanco_witness :
  (u "   " <> [] /\ forallb es_espacio (u "   ") = true) /\
  Motor.analizar_mantenimiento_completo Ejemplos.palabras_filtros
    Ejemplos.palabras_service (Some (u "   ")) (Some 7%Z) Ejemplos.db_cerrada
  <> Motor.analizar_mantenimiento_completo Ejemplos.palabras_filtros
       Ejemplos.palabras_service (Some []) (Some 7%Z) Ejemplos.db_cerrada.
Proof.
  assert (Hd : u "   " <> []) by discriminate.
  assert (He : forallb es_espacio (u "   ") = true) by reflexivity.
  split; [now split|].
  apply (descripcion_en_blanco Ejemplos.palabras_filtros
           Ejemplos.palabras_service (u "   ") (Some 7%Z) Ejemplos.db_cerrada
           Hd He).
  intros k datos H. vm_compute in H.
  destruct H as [[H|[H|[]]]|[H|[]]]; injection H as <- _; discriminate.
Defined.

(* ================================================================== *)
(** * Further properties: the instance, the audit table and the API *)
(* ================================================================== *)

Section Caches.

Import Instancia.





End Caches.



(** X15.  After [invalidar_cache] - and on a new instance - both detectors work
    on the rows the keyword tables hold at that moment, whatever was
    cached before. *)
Theorem invalidar_cache_recarga
    (bd : Instancia.BaseDatos) (m : Instancia.MotorReconocimiento)
    (fr ft : list Dato) (texto : str) (umbral : float) :
  Instancia.consulta_repuestos bd = Some fr ->
  Instancia.consulta_trabajos bd = Some ft ->
  fst (Instancia.detectar_repuestos bd texto umbral
         (Instancia.invalidar_cache m))
  = Ok (Motor.detectar_repuestos texto (cargar_palabras_clave fr) umbral) /\
  fst (Instancia.detectar_trabajos bd texto umbral
         (Instancia.invalidar_cache m))
  = Ok (Motor.detectar_trabajos texto (cargar_palabras_clave ft) umbral) /\
  fst (Instancia.detectar_repuestos bd texto umbral
         (Instancia.crear_motor_reconocimiento (Instancia.db_path m)))
  = Ok (Motor.detectar_repuestos texto (cargar_palabras_clave fr) umbral) /\
  fst (Instancia.detectar_trabajos bd texto umbral
         (Instancia.crear_motor_reconocimiento (Instancia.db_path m)))
  = Ok (Motor.detectar_trabajos texto (cargar_palabras_clave ft) umbral).
Proof.
  intros Hr Ht.
  unfold Instancia.detectar_repuestos, Instancia.detectar_trabajos,
    Instancia.cargar_palabras_clave_repuestos,
    Instancia.cargar_palabras_clave_trabajos.
  cbn. rewrite Hr, Ht. auto.
Qed.

Lemma invalidar_cache_recarga_witness :
  let bd0 := {| Instancia.consulta_repuestos := Some [Ejemplos.aceite];
                Instancia.consulta_trabajos := Some [] |} in
  let bd := {| Instancia.consulta_repuestos := Some [Ejemplos.filtro];
               Instancia.consulta_trabajos := Some [Ejemplos.service] |} in
  let m := snd (Instancia.cargar_palabras_clave_repuestos bd0
                  (Instancia.crear_motor_reconocimiento
                     Instancia.ruta_por_defecto)) in
  Instancia.cache_palabras_repuestos m
  = Some (cargar_palabras_clave [Ejemplos.aceite]) /\
  fst (Instancia.detectar_repuestos bd (u "filtro") f0_3
         (Instancia.invalidar_cache m))
  = Ok (Motor.detectar_repuestos (u "filtro")
          (cargar_palabras_clave [Ejemplos.filtro]) f0_3).
Proof.
  cbv zeta. split; [reflexivity|].
  refine (proj1 (invalidar_cache_recarga
            {| Instancia.consulta_repuestos := Some [Ejemplos.filtro];
               Instancia.consulta_trabajos := Some [Ejemplos.service] |}
            _ [Ejemplos.filtro] [Ejemplos.service] (u "filtro") f0_3
            eq_refl eq_refl)).
Defined.

Section AnalisisConEstado.

Import Instancia.

Variables (bd : BaseDatos) (m m1 m2 : MotorReconocimiento)
  (pr pt : Palabras).

Hypothesis carga_repuestos :
  cargar_palabras_clave_repuestos bd m = (Ok pr, m1).
Hypothesis carga_trabajos :
  cargar_palabras_clave_trabajos bd m1 = (Ok pt, m2).

Lemma instancia_analizar_cargado (d : str) (id : option Z) (db : Almacen) :
  d <> [] ->
  let dr := Motor.detectar_repuestos (fst (separar d)) pr f0_3 in
  let dt := Motor.detectar_trabajos (snd (separar d)) pt f0_3 in
  Instancia.analizar_mantenimiento_completo bd (Some d) id m db =
  match id_verdadero id with
  | None => (Ok (informe_de dr dt), m2, db)
  | Some z =>
      match guardar_si_mejor z dr (u "repuesto") db with
      | Raise e => (Raise e, m2, db)
      | Ok db1 =>
          match guardar_si_mejor z dt (u "trabajo") db1 with
          | Raise e => (Raise e, m2, db1)
          | Ok db2 => (Ok (informe_de dr dt), m2, db2)
          end
      end
  end.
Proof.
  intros Hd. cbv zeta. unfold Instancia.analizar_mantenimiento_completo.
  destruct d as [|c r]; [congruence|].
  destruct (separar (c :: r)) as [tr tt]. cbn [fst snd].
  unfold Instancia.detectar_repuestos, Instancia.detectar_trabajos.
  now rewrite carga_repuestos, carga_trabajos.
Qed.

Lemma motor_analizar_pasos (d : str) (id : option Z) (db : Almacen) :
  d <> [] ->
  let dr := Motor.detectar_repuestos (fst (separar d)) pr f0_3 in
  let dt := Motor.detectar_trabajos (snd (separar d)) pt f0_3 in
  Motor.analizar_mantenimiento_completo pr pt (Some d) id db =
  match id_verdadero id with
  | None => Ok (informe_de dr dt, db)
  | Some z =>
      match guardar_si_mejor z dr (u "repuesto") db with
      | Raise e => Raise e
      | Ok db1 =>
          match guardar_si_mejor z dt (u "trabajo") db1 with
          | Raise e => Raise e
          | Ok db2 => Ok (informe_de dr dt, db2)
          end
      end
  end.
Proof.
  intros Hd. cbv zeta. unfold Motor.analizar_mantenimiento_completo.
  destruct d as [|c r]; [congruence|].
  destruct (separar (c :: r)) as [tr tt]. cbn [fst snd].
  destruct (id_verdadero id) as [z|]; [|reflexivity]. cbn [bind].
  destruct (guardar_si_mejor z _ (u "repuesto") db) as [db1|e]; cbn [bind];
    [|reflexivity].
  now destruct (guardar_si_mejor z _ (u "trabajo") db1).
Qed.

End AnalisisConEstado.

(** With the two dictionaries the loaders hand over, the method of the
    instance and the analysis on given dictionaries have the same
    outcome: the same report and audit table, or the same exception. *)
Lemma instancia_refina_motor
    (bd : Instancia.BaseDatos) (m m1 m2 : Instancia.MotorReconocimiento)
    (pr pt : Palabras) (descripcion : option str) (id : option Z)
    (db : Almacen) :
  Instancia.cargar_palabras_clave_repuestos bd m = (Ok pr, m1) ->
  Instancia.cargar_palabras_clave_trabajos bd m1 = (Ok pt, m2) ->
  match Motor.analizar_mantenimiento_completo pr pt descripcion id db with
  | Ok (informe, db') =>
      exists m',
        Instancia.analizar_mantenimiento_completo bd descripcion id m db
        = (Ok informe, m', db')
  | Raise e =>
      fst (fst (Instancia.analizar_mantenimiento_completo bd descripcion id
                  m db))
      = Raise e
  end.
Proof.
  intros Hr Ht.
  destruct descripcion as [[|c r]|]; try (cbn; eexists; reflexivity).
  assert (Hd : c :: r <> []) by discriminate.
  rewrite (motor_analizar_pasos pr pt (c :: r) id db Hd).
  rewrite (instancia_analizar_cargado bd m m1 m2 pr pt Hr Ht (c :: r) id db Hd).
  cbv zeta. destruct (id_verdadero id) as [z|]; [|eexists; reflexivity].
  destruct (guardar_si_mejor z _ (u "repuesto") db) as [db1|e];
    [|reflexivity].
  destruct (guardar_si_mejor z _ (u "trabajo") db1) as [db2|e];
    [eexists|]; reflexivity.
Qed.

Lemma instancia_sin_repuestos
    (bd : Instancia.BaseDatos) (m : Instancia.MotorReconocimiento)
    (d : str) (id : option Z) (db : Almacen) :
  d <> [] ->
  Instancia.cache_palabras_repuestos m = None ->
  Instancia.consulta_repuestos bd = None ->
  Instancia.analizar_mantenimiento_completo bd (Some d) id m db
  = (Raise OperationalError, m, db).
Proof.
  intros Hd Hc Hq. unfold Instancia.analizar_mantenimiento_completo.
  destruct d as [|c r]; [congruence|].
  destruct (separar (c :: r)) as [tr tt].
  unfold Instancia.detectar_repuestos,
    Instancia.cargar_palabras_clave_repuestos.
  now rewrite Hc, Hq.
Qed.

Lemma instancia_sin_trabajos
    (bd : Instancia.BaseDatos) (m : Instancia.MotorReconocimiento)
    (fr : list Dato) (d : str) (id : option Z) (db : Almacen) :
  d <> [] ->
  Instancia.cache_palabras_repuestos m = None ->
  Instancia.consulta_repuestos bd = Some fr ->
  Instancia.cache_palabras_trabajos m = None ->
  Instancia.consulta_trabajos bd = None ->
  Instancia.analizar_mantenimiento_completo bd (Some d) id m db
  = (Raise OperationalError,
     {| Instancia.db_path := Instancia.db_path m;
        Instancia.cache_palabras_repuestos := Some (cargar_palabras_clave fr);
        Instancia.cache_palabras_trabajos := None |},
     db).
Proof.
  intros Hd Hc Hq Hc' Hq'. unfold Instancia.analizar_mantenimiento_completo.
  destruct d as [|c r]; [congruence|].
  destruct (separar (c :: r)) as [tr tt].
  unfold Instancia.detectar_repuestos,
    Instancia.cargar_palabras_clave_repuestos.
  rewrite Hc, Hq.
  unfold Instancia.detectar_trabajos,
    Instancia.cargar_palabras_clave_trabajos.
  cbn [Instancia.cache_palabras_trabajos]. now rewrite Hc', Hq'.
Qed.

(** X16.  When a keyword table cannot be read and nothing is cached, the
    analysis of a non-empty description raises and leaves the audit table
    as it was; a dictionary loaded before the failure stays cached.  A
    missing or empty description is answered without reading any
    table. *)
Theorem taxonomia_no_disponible
    (bd : Instancia.BaseDatos) (m : Instancia.MotorReconocimiento)
    (d : str) (id : option Z) (db : Almacen) :
  d <> [] ->
  (Instancia.cache_palabras_repuestos m = None ->
   Instancia.consulta_repuestos bd = None ->
   Instancia.analizar_mantenimiento_completo bd (Some d) id m db
   = (Raise OperationalError, m, db)) /\
  (forall fr,
      Instancia.cache_palabras_repuestos m = None ->
      Instancia.consulta_repuestos bd = Some fr ->
      Instancia.cache_palabras_trabajos m = None ->
      Instancia.consulta_trabajos bd = None ->
      exists m1,
        Instancia.analizar_mantenimiento_completo bd (Some d) id m db
        = (Raise OperationalError, m1, db) /\
        Instancia.cache_palabras_repuestos m1
        = Some (cargar_palabras_clave fr)) /\
  Instancia.analizar_mantenimiento_completo bd None id m db
  = (Ok informe_vacio, m, db) /\
  Instancia.analizar_mantenimiento_completo bd (Some []) id m db
  = (Ok informe_vacio, m, db).
Proof.
  intros Hd. repeat split.
  - now apply instancia_sin_repuestos.
  - intros fr Hc Hq Hc' Hq'. eexists.
    unfold Instancia.analizar_mantenimiento_completo.
    destruct d as [|c r]; [congruence|].
    destruct (separar (c :: r)) as [tr tt].
    unfold Instancia.detectar_repuestos, Instancia.detectar_trabajos,
      Instancia.cargar_palabras_clave_repuestos,
      Instancia.cargar_palabras_clave_trabajos.
    rewrite Hc, Hq. cbn. rewrite Hc', Hq'. split; reflexivity.
Qed.

Lemma taxonomia_no_disponible_witness :
  let bd := {| Instancia.consulta_repuestos := None;
               Instancia.consulta_trabajos := None |} in
  let m := Instancia.crear_motor_reconocimiento Instancia.ruta_por_defecto in
  u "filtro" <> [] /\
  Instancia.analizar_mantenimiento_completo bd (Some (u "filtro"))
    (Some 7%Z) m Ejemplos.db_abierta
  = (Raise OperationalError, m, Ejemplos.db_abierta).
Proof.
  cbv zeta. assert (Hd : u "filtro" <> []) by discriminate.
  split; [exact Hd|].
  exact (proj1 (taxonomia_no_disponible
                  {| Instancia.consulta_repuestos := None;
                     Instancia.consulta_trabajos := None |}
                  (Instancia.crear_motor_reconocimiento
                     Instancia.ruta_por_defecto)
                  (u "filtro") (Some 7%Z) Ejemplos.db_abierta Hd)
               eq_refl eq_refl).
Defined.

Section Escrituras.

Lemma guardar_si_mejor_casos (z : Z) (det : DeteccionCompleta) (tipo : str)
    (db db1 : Almacen) :
  guardar_si_mejor z det tipo db = Ok db1 ->
  (mejor_clasificacion det = None /\ db1 = db) \/
  (exists mejor,
      mejor_clasificacion det = Some mejor /\
      acepta db (fila_de z det tipo mejor) = true /\
      db1 = {| filas := filas db ++ [fila_de z det tipo mejor];
               acepta := acepta db |}).
Proof.
  unfold guardar_si_mejor, guardar_clasificacion, insertar_fila.
  destruct (mejor_clasificacion det) as [mejor|]; [|intros [= <-]; now left].
  destruct (acepta db _) eqn:E; [|discriminate].
  intros [= <-]. right. exists mejor. auto.
Qed.

Lemma guardar_agrega (z : Z) (det : DeteccionCompleta) (tipo : str)
    (db db1 : Almacen) :
  guardar_si_mejor z det tipo db = Ok db1 ->
  acepta db1 = acepta db /\
  exists n,
    filas db1 = filas db ++ n /\ (List.length n <= 1)%nat /\
    forall fila, In fila n ->
      reg_mantenimiento_id fila = z /\ acepta db fila = true /\
      reg_tipo fila = tipo.
Proof.
  intros H. apply guardar_si_mejor_casos in H as [[_ ->]|(mejor & _ & Ha & ->)].
  - split; [reflexivity|]. exists []. rewrite app_nil_r.
    split; [reflexivity|]. split; [cbn; lia|]. intros fila [].
  - split; [reflexivity|]. exists [fila_de z det tipo mejor].
    split; [reflexivity|]. split; [cbn; lia|].
    intros fila [<-|[]]. auto.
Qed.

End Escrituras.

(** X17.  Each pass commits its own row: when the row of the spare-parts pass
    is accepted and the row of the labour pass is refused, the analysis
    raises and the spare-parts row stays in the audit table. *)
Theorem escritura_parcial
    (bd : Instancia.BaseDatos) (m m1 m2 : Instancia.MotorReconocimiento)
    (pr pt : Palabras) (d : str) (z : Z) (db : Almacen)
    (mr mt : ClasificacionResultado) :
  Instancia.cargar_palabras_clave_repuestos bd m = (Ok pr, m1) ->
  Instancia.cargar_palabras_clave_trabajos bd m1 = (Ok pt, m2) ->
  d <> [] -> z <> 0%Z ->
  let dr := Motor.detectar_repuestos (fst (separar d)) pr f0_3 in
  let dt := Motor.detectar_trabajos (snd (separar d)) pt f0_3 in
  mejor_clasificacion dr = Some mr ->
  mejor_clasificacion dt = Some mt ->
  acepta db (fila_de z dr (u "repuesto") mr) = true ->
  acepta db (fila_de z dt (u "trabajo") mt) = false ->
  Instancia.analizar_mantenimiento_completo bd (Some d) (Some z) m db
  = (Raise OperationalError, m2,
     {| filas := filas db ++ [fila_de z dr (u "repuesto") mr];
        acepta := acepta db |}).
Proof.
  intros Hr Ht Hd Hz dr dt Hmr Hmt Har Hat.
  rewrite (instancia_analizar_cargado bd m m1 m2 pr pt Hr Ht d (Some z) db Hd).
  cbv zeta. fold dr dt. cbn [id_verdadero].
  destruct (Z.eqb_spec z 0); [congruence|].
  unfold guardar_si_mejor, guardar_clasificacion, insertar_fila.
  rewrite Hmr, Har, Hmt. cbn [acepta]. now rewrite Hat.
Qed.

Lemma escritura_parcial_witness :
  let bd := {| Instancia.consulta_repuestos := Some [Ejemplos.filtro];
               Instancia.consulta_trabajos := Some [Ejemplos.service] |} in
  let m := Instancia.crear_motor_reconocimiento Instancia.ruta_por_defecto in
  exists m2 fila,
    Instancia.analizar_mantenimiento_completo bd
      (Some (u "filtro | service")) (Some 7%Z) m solo_repuestos
    = (Raise OperationalError, m2,
       {| filas := [fila]; acepta := acepta solo_repuestos |}) /\
    reg_tipo fila = u "repuesto".
Proof.
  cbv zeta. eexists. eexists. split.
  - refine (escritura_parcial
              {| Instancia.consulta_repuestos := Some [Ejemplos.filtro];
                 Instancia.consulta_trabajos := Some [Ejemplos.service] |}
              (Instancia.crear_motor_reconocimiento
                 Instancia.ruta_por_defecto)
              _ _ _ _ (u "filtro | service") 7 solo_repuestos
              (resultado_de Ejemplos.filtro (decimal 675 1000))
              (resultado_de Ejemplos.service (decimal 675 1000))
              eq_refl eq_refl _ _ eq_refl eq_refl eq_refl eq_refl);
      discriminate.
  - reflexivity.
Defined.

(** X18.  Whatever its outcome, one analysis only appends to the audit table:
    the rows that were there stay, in place; at most two rows are added,
    none when the record id is missing or 0; every added row was accepted
    by the database, bears the record id and is of type "repuesto" or
    "trabajo". *)
Theorem auditoria_solo_agrega
    (bd : Instancia.BaseDatos) (descripcion : option str) (id : option Z)
    (m : Instancia.MotorReconocimiento) (db : Almacen) :
  let db' := snd (Instancia.analizar_mantenimiento_completo bd descripcion
                    id m db) in
  acepta db' = acepta db /\
  exists nuevas,
    filas db' = filas db ++ nuevas /\
    (List.length nuevas <= 2)%nat /\
    (id_verdadero id = None -> nuevas = []) /\
    forall fila, In fila nuevas ->
      id = Some (reg_mantenimiento_id fila) /\
      acepta db fila = true /\
      (reg_tipo fila = u "repuesto" \/ reg_tipo fila = u "trabajo").
Proof.
  cbv zeta.
  assert (nada :
            acepta db = acepta db /\
            exists nuevas,
              filas db = filas db ++ nuevas /\
              (List.length nuevas <= 2)%nat /\
              (id_verdadero id = None -> nuevas = []) /\
              forall fila, In fila nuevas ->
                id = Some (reg_mantenimiento_id fila) /\
                acepta db fila = true /\
                (reg_tipo fila = u "repuesto" \/ reg_tipo fila = u "trabajo")).
  { split; [reflexivity|]. exists []. rewrite app_nil_r.
    split; [reflexivity|]. split; [cbn; lia|]. split; [reflexivity|].
    intros fila []. }
  unfold Instancia.analizar_mantenimiento_completo.
  destruct descripcion as [[|c r]|]; try exact nada.
  destruct (separar (c :: r)) as [tr tt].
  destruct (Instancia.detectar_repuestos bd tr f0_3 m) as [[dr|e] m1];
    [|exact nada].
  destruct (Instancia.detectar_trabajos bd tt f0_3 m1) as [[dt|e] m2];
    [|exact nada].
  destruct (id_verdadero id) as [z|] eqn:Eid; [|exact nada].
  assert (Hid : id = Some z).
  { destruct id as [y|]; [|discriminate]. cbn in Eid.
    destruct (y =? 0)%Z; [discriminate|]. congruence. }
  destruct (guardar_si_mejor z dr (u "repuesto") db) as [db1|e] eqn:E1;
    [|exact nada].
  destruct (guardar_agrega z dr (u "repuesto") db db1 E1)
    as (A1 & n1 & F1 & L1 & P1).
  assert (uno :
            acepta db1 = acepta db /\
            exists nuevas,
              filas db1 = filas db ++ nuevas /\
              (List.length nuevas <= 2)%nat /\
              (Some z = None -> nuevas = []) /\
              forall fila, In fila nuevas ->
                id = Some (reg_mantenimiento_id fila) /\
                acepta db fila = true /\
                (reg_tipo fila = u "repuesto" \/ reg_tipo fila = u "trabajo")).
  { split; [exact A1|]. exists n1.
    split; [exact F1|]. split; [lia|]. split; [discriminate|].
    intros fila Hf. destruct (P1 fila Hf) as (Q1 & Q2 & Q3).
    rewrite Hid, Q1. auto. }
  destruct (guardar_si_mejor z dt (u "trabajo") db1) as [db2|e] eqn:E2;
    [|exact uno].
  destruct (guardar_agrega z dt (u "trabajo") db1 db2 E2)
    as (A2 & n2 & F2 & L2 & P2).
  cbn [snd]. split; [congruence|]. exists (n1 ++ n2).
  split; [now rewrite F2, F1, app_assoc|].
  split; [rewrite length_app; lia|]. split; [discriminate|].
  intros fila Hf. apply in_app_iff in Hf as [Hf|Hf].
  - destruct (P1 fila Hf) as (Q1 & Q2 & Q3). rewrite Hid, Q1. auto.
  - destruct (P2 fila Hf) as (Q1 & Q2 & Q3). rewrite Hid, Q1, <- A1. auto.
Qed.

(** X19.  On success with a non-zero record id, the audit table grows by one
    row per pass that has a best match, spare parts first.  The row names
    the category of the first match of the ranking and its confidence, and
    keeps one keyword list per detected category (all of them, not only
    the five of the report). *)
Theorem registro_por_pasada
    (pr pt : Palabras) (d : str) (z : Z) (db db' : Almacen)
    (informe : Informe) :
  d <> [] -> z <> 0%Z ->
  Motor.analizar_mantenimiento_completo pr pt (Some d) (Some z) db
  = Ok (informe, db') ->
  let dr := detectar_repuestos (fst (separar d)) pr f0_3 in
  let dt := detectar_trabajos (snd (separar d)) pt f0_3 in
  let fila_pasada det tipo :=
    match clasificaciones det with
    | [] => []
    | mejor :: _ =>
        [{| reg_mantenimiento_id := z;
            reg_texto_original := texto_original det;
            reg_tipo := tipo;
            reg_categoria_detectada := categoria mejor;
            reg_confianza := confianza mejor;
            reg_palabras_encontradas :=
              map palabras_encontradas (clasificaciones det) |}]
    end in
  filas db' = filas db ++ fila_pasada dr (u "repuesto")
                       ++ fila_pasada dt (u "trabajo").
Proof.
  intros Hd Hz H dr dt fila_pasada.
  rewrite analizar_con_id in H by trivial. fold dr dt in H.
  assert (paso : forall calcular texto pc tipo dbi dbf,
            guardar_si_mejor z (detectar calcular texto pc f0_3) tipo dbi
            = Ok dbf ->
            filas dbf = filas dbi
                        ++ fila_pasada (detectar calcular texto pc f0_3) tipo).
  { intros calcular texto pc tipo dbi dbf G.
    pose proof (detectar_total calcular texto pc f0_3) as T.
    apply guardar_si_mejor_casos in G as [[E ->]|(mejor & E & _ & ->)];
      unfold fila_pasada;
      change (mejor_clasificacion (detectar calcular texto pc f0_3))
        with (hd_error (clasificaciones (detectar calcular texto pc f0_3)))
        in E;
      destruct (clasificaciones (detectar calcular texto pc f0_3))
        as [|x r] eqn:Ec; try discriminate.
    - now rewrite app_nil_r.
    - injection E as ->. cbn [filas]. unfold fila_de.
      now rewrite T, Ec. }
  destruct (guardar_si_mejor z dr (u "repuesto") db) as [db1|e] eqn:E1;
    cbn [bind] in H; [|discriminate].
  destruct (guardar_si_mejor z dt (u "trabajo") db1) as [db2|e] eqn:E2;
    cbn [bind] in H; [|discriminate].
  injection H as _ <-.
  rewrite (paso _ _ _ _ _ _ E2), (paso _ _ _ _ _ _ E1).
  now rewrite <- app_assoc.
Qed.

Lemma registro_por_pasada_witness :
  (u "filtro de aceite" <> [] /\ 7%Z <> 0%Z) /\
  exists informe db',
    Motor.analizar_mantenimiento_completo Ejemplos.palabras_filtros
      Ejemplos.palabras_service (Some (u "filtro de aceite")) (Some 7%Z)
      Ejemplos.db_abierta
    = Ok (informe, db') /\
    map reg_tipo (filas db') = [u "repuesto"] /\
    map reg_confianza (filas db') = [decimal 675 1000].
Proof.
  assert (Hd : u "filtro de aceite" <> []) by discriminate.
  assert (Hz : 7%Z <> 0%Z) by discriminate.
  split; [now split|].
  remember (Motor.analizar_mantenimiento_completo Ejemplos.palabras_filtros
              Ejemplos.palabras_service (Some (u "filtro de aceite"))
              (Some 7%Z) Ejemplos.db_abierta) as res eqn:E0.
  pose proof E0 as E. vm_compute in E.
  match type of E with
  | _ = Ok (?I, ?D) =>
      exists I, D;
      pose proof (registro_por_pasada Ejemplos.palabras_filtros
                    Ejemplos.palabras_service (u "filtro de aceite") 7
                    Ejemplos.db_abierta D I Hd Hz
                    (eq_trans (eq_sym E0) E)) as R
  end.
  split; [exact E|]. cbv zeta in R. rewrite R. split; reflexivity.
Defined.

(** X20.  The handler of [/api/analizar_mantenimiento/<id>] always answers,
    with one of three statuses.  404 for a record that does not exist, and
    500 with the exception when its own query fails, both without touching
    the engine.  For a record without description, 200 with the empty
    report, whatever the state of the keyword tables.  For a record with a
    description: 500 with the exception and an unchanged audit table when
    the spare-parts table or the labour table cannot be read; when both
    can, 200 with the analysis computed from the rows they hold at the
    time of the request, or 500 with the exception of a refused audit
    write.  The keyword rows are typed records: a [NULL] in [peso] or
    [complejidad] is outside of the model. *)
Theorem api_respuestas
    (bd : Instancia.BaseDatos) (id : Z) (db : Almacen) :
  Instancia.api_analizar_mantenimiento bd (Ok None) id db
  = ((Instancia.CuerpoError Instancia.NoEncontrado, 404%Z), db) /\
  (forall e,
      Instancia.api_analizar_mantenimiento bd (Raise e) id db
      = ((Instancia.CuerpoError (Instancia.DeExcepcion e), 500%Z), db)) /\
  (forall mant,
      Instancia.descripcion mant = None \/
      Instancia.descripcion mant = Some [] ->
      Instancia.api_analizar_mantenimiento bd (Ok (Some mant)) id db
      = ((Instancia.CuerpoAnalisis id (Instancia.equipo_nombre mant)
            (Instancia.cliente_nombre mant)
            (Instancia.fecha_mantenimiento mant)
            (Instancia.descripcion mant) informe_vacio, 200%Z), db)) /\
  (forall mant d,
      Instancia.descripcion mant = Some d -> d <> [] ->
      Instancia.consulta_repuestos bd = None \/
      Instancia.consulta_trabajos bd = None ->
      Instancia.api_analizar_mantenimiento bd (Ok (Some mant)) id db
      = ((Instancia.CuerpoError (Instancia.DeExcepcion OperationalError),
          500%Z), db)) /\
  (forall mant fr ft,
      Instancia.consulta_repuestos bd = Some fr ->
      Instancia.consulta_trabajos bd = Some ft ->
      match Motor.analizar_mantenimiento_completo
              (cargar_palabras_clave fr) (cargar_palabras_clave ft)
              (Instancia.descripcion mant) (Some id) db with
      | Ok (informe, db') =>
          Instancia.api_analizar_mantenimiento bd (Ok (Some mant)) id db
          = ((Instancia.CuerpoAnalisis id (Instancia.equipo_nombre mant)
                (Instancia.cliente_nombre mant)
                (Instancia.fecha_mantenimiento mant)
                (Instancia.descripcion mant) informe, 200%Z), db')
      | Raise e =>
          fst (Instancia.api_analizar_mantenimiento bd (Ok (Some mant)) id db)
          = (Instancia.CuerpoError (Instancia.DeExcepcion e), 500%Z)
      end) /\
  (forall fila,
      match fst (Instancia.api_analizar_mantenimiento bd fila id db) with
      | (Instancia.CuerpoAnalisis _ _ _ _ _ _, estado) => estado = 200%Z
      | (Instancia.CuerpoError Instancia.NoEncontrado, estado) =>
          estado = 404%Z
      | (Instancia.CuerpoError (Instancia.DeExcepcion _), estado) =>
          estado = 500%Z
      end).
Proof.
  pose (m0 := Instancia.crear_motor_reconocimiento
                Instancia.ruta_por_defecto).
  split; [reflexivity|]. split; [reflexivity|]. split; [|split; [|split]].
  - intros mant [E|E]; unfold Instancia.api_analizar_mantenimiento;
      rewrite E; reflexivity.
  - intros mant d Hdesc Hd Hq. unfold Instancia.api_analizar_mantenimiento.
    rewrite Hdesc. fold m0.
    destruct (Instancia.consulta_repuestos bd) as [fr|] eqn:Hr.
    + destruct Hq as [Hq|Hq]; [discriminate|].
      now rewrite (instancia_sin_trabajos bd m0 fr d (Some id) db Hd
                     eq_refl Hr eq_refl Hq).
    + now rewrite (instancia_sin_repuestos bd m0 d (Some id) db Hd
                     eq_refl Hr).
  - intros mant fr ft Hr Ht.
    assert (L1 : exists m1,
               Instancia.cargar_palabras_clave_repuestos bd m0
               = (Ok (cargar_palabras_clave fr), m1) /\
               Instancia.cache_palabras_trabajos m1 = None).
    { unfold Instancia.cargar_palabras_clave_repuestos. cbn. rewrite Hr.
      eexists. split; reflexivity. }
    destruct L1 as (m1 & L1 & C1).
    assert (L2 : exists m2,
               Instancia.cargar_palabras_clave_trabajos bd m1
               = (Ok (cargar_palabras_clave ft), m2)).
    { unfold Instancia.cargar_palabras_clave_trabajos. rewrite C1, Ht.
      eexists. reflexivity. }
    destruct L2 as (m2 & L2).
    pose proof (instancia_refina_motor bd m0 m1 m2 _ _
                  (Instancia.descripcion mant) (Some id) db L1 L2) as R.
    unfold Instancia.api_analizar_mantenimiento. fold m0.
    destruct (Motor.analizar_mantenimiento_completo _ _ _ _ _)
      as [[informe db']|e].
    + destruct R as (m' & ->). reflexivity.
    + destruct (Instancia.analizar_mantenimiento_completo bd _ _ m0 db)
        as [[r m'] db'']. cbn in R. subst r. reflexivity.
  - intros [[mant|]|e]; try reflexivity.
    unfold Instancia.api_analizar_mantenimiento.
    destruct (Instancia.analizar_mantenimiento_completo bd _ _ _ db)
      as [[[informe|e] m'] db']; reflexivity.
Qed.

Lemma api_respuestas_witness :
  let bd := {| Instancia.consulta_repuestos := Some [Ejemplos.filtro];
               Instancia.consulta_trabajos := None |} in
  let mant := {| Instancia.descripcion := Some (u "cambio de filtro");
                 Instancia.equipo_nombre := u "Torno";
                 Instancia.cliente_nombre := u "Taller";
                 Instancia.fecha_mantenimiento := u "2024-01-01" |} in
  (Instancia.descripcion mant = Some (u "cambio de filtro") /\
   u "cambio de filtro" <> [] /\
   (Instancia.consulta_repuestos bd = None \/
    Instancia.consulta_trabajos bd = None)) /\
  Instancia.api_analizar_mantenimiento bd (Ok (Some mant)) 7
    Ejemplos.db_abierta
  = ((Instancia.CuerpoError (Instancia.DeExcepcion OperationalError),
      500%Z), Ejemplos.db_abierta).
Proof.
  cbv zeta.
  assert (Hd : u "cambio de filtro" <> []) by discriminate.
  split; [split; [reflexivity|split; [exact Hd|now right]]|].
  refine (proj1 (proj2 (proj2 (proj2
            (api_respuestas
               {| Instancia.consulta_repuestos := Some [Ejemplos.filtro];
                  Instancia.consulta_trabajos := None |}
               7 Ejemplos.db_abierta))))
            {| Instancia.descripcion := Some (u "cambio de filtro");
               Instancia.equipo_nombre := u "Torno";
               Instancia.cliente_nombre := u "Taller";
               Instancia.fecha_mantenimiento := u "2024-01-01" |}
            (u "cambio de filtro") eq_refl Hd (or_intror eq_refl)).
Defined.

(* ================================================================== *)
(** * Further properties: ties in the deduplication *)
(* ================================================================== *)

Section Empates.

Local Open Scope Z_scope.

Lemma fleb_fltb_trans (a b c : float) :
  fleb a b = true -> fltb b c = true -> fltb a c = true.
Proof.
  rewrite fleb_spec, !fltb_spec. intros (Ha & Hb & H1) (_ & Hc & H2).
  repeat split; trivial.
  destruct (clave_orden a) as [[a1 a2] a3], (clave_orden b) as [[b1 b2] b3],
    (clave_orden c) as [[c1 c2] c3]; cbn in *; lia.
Qed.

Implicit Types (cls v : ClasificacionResultado)
  (unicas : list (str * ClasificacionResultado)).

Lemma actualizar_casos cls unicas :
  (~ In (categoria cls) (map fst unicas) /\
   actualizar cls unicas = unicas ++ [(categoria cls, cls)]) \/
  (exists u1 v0 u2,
      unicas = u1 ++ (categoria cls, v0) :: u2 /\
      actualizar cls unicas =
        u1 ++ (categoria cls,
               if fltb (confianza v0) (confianza cls) then cls else v0) :: u2).
Proof.
  induction unicas as [|[k a] r IH]; cbn.
  - left. split; [tauto|reflexivity].
  - destruct (str_eqb k (categoria cls)) eqn:E.
    + apply str_eqb_eq in E. subst k. right. exists [], a, r.
      split; [reflexivity|]. now destruct (fltb _ _).
    + apply str_eqb_neq in E.
      destruct IH as [[Hn ->]|(u1 & v0 & u2 & -> & ->)].
      * left. split; [intuition congruence|reflexivity].
      * right. exists ((k, a) :: u1), v0, u2. split; reflexivity.
Qed.

Lemma primero_extiende (P : list ClasificacionResultado) cls v :
  primero_de_su_categoria P v ->
  (categoria cls = categoria v ->
   fleb (confianza cls) (confianza v) = true) ->
  primero_de_su_categoria (P ++ [cls]) v.
Proof.
  intros (l1 & l2 & -> & H1 & H2) Hc.
  exists l1, (l2 ++ [cls]). split; [now rewrite <- app_assoc|].
  split; trivial. intros c Hin E. apply in_app_iff in Hin as [Hin|[<-|[]]]; auto.
Qed.

Lemma primero_cota (P : list ClasificacionResultado) v c :
  Forall sin_nan P -> primero_de_su_categoria P v ->
  In c P -> categoria c = categoria v ->
  fleb (confianza c) (confianza v) = true.
Proof.
  intros Hn (l1 & l2 & -> & H1 & H2) Hin E.
  apply in_app_iff in Hin as [Hin|[<-|Hin]]; auto.
  - apply fltb_fleb. auto.
  - apply fleb_refl. rewrite Forall_forall in Hn. apply Hn.
    apply in_or_app. right. now left.
Qed.

Lemma dic_ordenado_paso (P : list ClasificacionResultado) cls unicas :
  sin_nan cls -> dic_ordenado P unicas ->
  dic_ordenado (P ++ [cls]) (actualizar cls unicas).
Proof.
  intros Hcls (ND & Hv & Hk & Hn).
  assert (Hn' : Forall sin_nan (P ++ [cls])).
  { apply Forall_app. split; trivial. now constructor. }
  split; [now apply actualizar_NoDup|]. split; [|split; trivial].
  2:{ intros c Hin. apply actualizar_claves_iff.
      apply in_app_iff in Hin as [Hin|[<-|[]]]; auto. }
  assert (viejo : forall k v, In (k, v) unicas -> k <> categoria cls ->
                    k = categoria v /\
                    primero_de_su_categoria (P ++ [cls]) v).
  { intros k v Hin Hne. destruct (Hv k v Hin) as [-> Hp].
    split; trivial. apply primero_extiende; trivial. congruence. }
  destruct (actualizar_casos cls unicas)
    as [[Hno ->]|(u1 & v0 & u2 & Eu & ->)].
  - intros k v Hin. apply in_app_iff in Hin as [Hin|[[= <- <-]|[]]].
    + apply viejo; trivial. intros ->. apply Hno.
      change (categoria cls) with (fst (categoria cls, v)). now apply in_map.
    + split; trivial. exists P, []. split; [reflexivity|].
      split; [|intros c []]. intros c Hin E. exfalso. apply Hno.
      rewrite <- E. now apply Hk.
  - subst unicas.
    assert (otras : forall k v, In (k, v) (u1 ++ u2) -> k <> categoria cls).
    { intros k v Hin ->. rewrite map_app in ND. cbn in ND.
      apply NoDup_remove_2 in ND. apply ND. rewrite <- map_app.
      change (categoria cls) with (fst (categoria cls, v)). now apply in_map. }
    destruct (Hv (categoria cls) v0) as [E0 P0].
    { apply in_or_app. right. now left. }
    intros k v Hin. apply in_app_iff in Hin as [Hin|[[= <- <-]|Hin]].
    + apply viejo; [apply in_or_app; now left|].
      apply (otras k v). apply in_or_app. now left.
    + destruct (fltb (confianza v0) (confianza cls)) eqn:F.
      * split; trivial. exists P, []. split; [reflexivity|].
        split; [|intros c []]. intros c Hin E.
        apply (fleb_fltb_trans _ (confianza v0)); trivial.
        apply (primero_cota P v0 c); trivial. congruence.
      * split; trivial. apply primero_extiende; trivial.
        intros _. apply fltb_false_fleb; trivial.
        destruct P0 as (l1 & l2 & -> & _). rewrite Forall_forall in Hn.
        apply Hn. apply in_or_app. right. now left.
    + apply viejo; [apply in_or_app; right; now right|].
      apply (otras k v). apply in_or_app. now right.
Qed.

Lemma dic_ordenado_plegar (l : list ClasificacionResultado) :
  forall P unicas,
    Forall sin_nan l -> dic_ordenado P unicas ->
    dic_ordenado (P ++ l) (plegar l unicas).
Proof.
  induction l as [|c l IH]; intros P unicas Hl H; cbn.
  - now rewrite app_nil_r.
  - inversion Hl; subst.
    change (P ++ c :: l) with (P ++ [c] ++ l). rewrite app_assoc.
    apply IH; trivial. now apply dic_ordenado_paso.
Qed.

Lemma finales_primero (l : list ClasificacionResultado) m :
  Forall sin_nan l -> In m (finales l) -> primero_de_su_categoria l m.
Proof.
  intros Hl Hm. apply finales_In in Hm.
  destruct (dic_ordenado_plegar l [] [] Hl) as (_ & H & _).
  { split; [constructor|]. split; [intros ? ? []|].
    split; [intros ? []|constructor]. }
  now apply (H (categoria m) m).
Qed.

End Empates.

(** X21.  Ties go to the first: the match kept for a category is the first
    candidate of that category, in the order of the taxonomy, that no
    other one exceeds.  Every earlier candidate of the category has a
    strictly smaller confidence, every later one a confidence that is not
    greater. *)
Theorem empate_gana_el_primero
    (texto : str) (pc : Palabras) (umbral : float) :
  (forall m,
      In m (clasificaciones (detectar_repuestos texto pc umbral)) ->
      primero_de_su_categoria
        (candidatos confianza_repuesto (normalizar_texto texto) umbral pc)
        m) /\
  (forall m,
      In m (clasificaciones (detectar_trabajos texto pc umbral)) ->
      primero_de_su_categoria
        (candidatos confianza_trabajo (normalizar_texto texto) umbral pc)
        m).
Proof.
  split; intros m H; apply finales_primero; trivial;
    apply candidatos_sin_nan.
Qed.
